(** * morphcloud.experimental: the memoizing snapshot layer

    A shallow embedding of [morphcloud/experimental/__init__.py]: the
    bounded streaming buffer, the SSH output stream and its consumer, the
    content keys and the cached [Snapshot.apply] / [run] / [copy_] / [do]
    pipeline, followed by the properties established about them.

    Python [str] values are sequences of Unicode code points; they are
    modelled as [list N].  Python exceptions are values of [PyExc]; a
    computation that may raise returns a [Result]. *)

From Stdlib Require Import ZArith NArith Lia Bool String Ascii DecimalString List.
From Stdlib Require DecimalPos DecimalZ.
Import ListNotations.

Set Implicit Arguments.

(* ------------------------------------------------------------------ *)
(** ** Python strings *)

Module PyStr.

Definition str := list N.

(** An ASCII literal of the source, as code points. *)
Definition lit (s : string) : str := map N_of_ascii (list_ascii_of_string s).

Fixpoint eqb (a b : str) : bool :=
  match a, b with
  | [], [] => true
  | x :: a', y :: b' => N.eqb x y && eqb a' b'
  | _, _ => false
  end.

(** Truthiness of a string: [if s:]. *)
Definition truthy (s : str) : bool :=
  match s with [] => false | _ :: _ => true end.

(** [str(n)] for an integer. *)
Definition str_of_int (z : Z) : str := lit (NilZero.string_of_int (Z.to_int z)).

(** [sep.join(parts)]. *)
Fixpoint join (sep : str) (parts : list str) : str :=
  match parts with
  | [] => []
  | [p] => p
  | p :: rest => p ++ sep ++ join sep rest
  end.

Definition slash : N := 47%N.

(** [s.endswith("/")]. *)
Definition endswith_slash (s : str) : bool :=
  match rev s with
  | c :: _ => N.eqb c slash
  | [] => false
  end.

Fixpoint lstrip_slash (s : str) : str :=
  match s with
  | c :: s' => if N.eqb c slash then lstrip_slash s' else s
  | [] => []
  end.

(** [s.rstrip("/")]. *)
Definition rstrip_slash (s : str) : str := rev (lstrip_slash (rev s)).

(** [needle in hay], as a proposition and as a test. *)
Definition contains (needle hay : str) : Prop :=
  exists pre post, hay = pre ++ needle ++ post.

Fixpoint is_prefix (p s : str) : bool :=
  match p, s with
  | [], _ => true
  | x :: p', y :: s' => N.eqb x y && is_prefix p' s'
  | _ :: _, [] => false
  end.

Fixpoint containsb (needle hay : str) : bool :=
  is_prefix needle hay ||
  match hay with
  | [] => false
  | _ :: hay' => containsb needle hay'
  end.

(** The characters at which [str.splitlines] ends a line: LF, VT, FF, CR,
    FS, GS, RS, NEL, LINE SEPARATOR, PARAGRAPH SEPARATOR (CR LF counts as
    one boundary). *)
Definition is_linebreak (c : N) : bool :=
  existsb (N.eqb c) [10; 11; 12; 13; 28; 29; 30; 133; 8232; 8233]%N.

(** [s.splitlines(keepends=True)], with [cur] the reversed line in progress. *)
Fixpoint splitlines_from (cur : str) (s : str) : list str :=
  match s with
  | [] => match cur with [] => [] | _ :: _ => [rev cur] end
  | c :: rest =>
      if N.eqb c 13 then
        match rest with
        | d :: rest' =>
            if N.eqb d 10
            then rev (d :: c :: cur) :: splitlines_from [] rest'
            else rev (c :: cur) :: splitlines_from [] rest
        | [] => [rev (c :: cur)]
        end
      else if is_linebreak c then rev (c :: cur) :: splitlines_from [] rest
      else splitlines_from (c :: cur) rest
  end.

Definition splitlines (s : str) : list str := splitlines_from [] s.

(** The final path component, [Path(p).name] on a POSIX path: empty and
    [.] components are dropped by pathlib before the last one is taken. *)
Fixpoint components_from (cur : str) (s : str) : list str :=
  match s with
  | [] => [rev cur]
  | c :: rest =>
      if N.eqb c slash then rev cur :: components_from [] rest
      else components_from (c :: cur) rest
  end.

Definition path_parts (p : str) : list str :=
  filter (fun c => negb (eqb c [] || eqb c (lit "."))) (components_from [] p).

Definition path_name (p : str) : str := last (path_parts p) [].

End PyStr.
Import PyStr.

(* ------------------------------------------------------------------ *)
(** ** Exceptions and results *)

Record PyExc := { exc_type : str; exc_msg : str }.

Inductive Result (A : Type) : Type :=
| Ok (a : A)
| Raise (e : PyExc).
Arguments Ok {A} a.
Arguments Raise {A} e.

Definition rbind {A B} (r : Result A) (k : A -> Result B) : Result B :=
  match r with
  | Ok a => k a
  | Raise e => Raise e
  end.

Declare Scope result_scope.
Delimit Scope result_scope with result.
Notation "x <- r ;; k" := (rbind r (fun x => k))
  (at level 100, r at next level, right associativity) : result_scope.

(* ------------------------------------------------------------------ *)
(** ** The streaming buffer ([_append_stream_chunk]) *)

Module Stream.

Definition STREAM_MAX_LINES : Z := 24.

(** [ELLIPSIS]: U+22EF, the text [ [output truncated] ], U+22EF, newline. *)
Definition ELLIPSIS : str := [8943%N] ++ lit " [output truncated] " ++ [8943%N; 10%N].

(** each deque element: (line_text, style_or_None) *)
Definition Line : Type := str * option str.

(** [rich.text.Text], as far as the module uses it: the plain text and the
    style spans.  [Text.append] drops the control codes BEL, BS, VT, FF and
    CR from what it is given and adds nothing for an empty string. *)
Record Span := { span_start : nat; span_end : nat; span_style : str }.
Record Text := { plain : str; spans : list Span }.

Definition empty_text : Text := {| plain := []; spans := [] |}.

Definition is_control (c : N) : bool := existsb (N.eqb c) [7; 8; 11; 12; 13]%N.

Definition strip_control_codes (s : str) : str :=
  filter (fun c => negb (is_control c)) s.

Definition style_truthy (st : option str) : option str :=
  match st with
  | Some (c :: s) => Some (c :: s)
  | _ => None
  end.

Definition text_append (t : Text) (text : str) (style : option str) : Text :=
  match text with
  | [] => t
  | _ :: _ =>
      let sanitized := strip_control_codes text in
      let offset := length (plain t) in
      {| plain := plain t ++ sanitized;
         spans := match style_truthy style with
                  | Some st => spans t ++ [{| span_start := offset;
                                              span_end := offset + length sanitized;
                                              span_style := st |}]
                  | None => spans t
                  end |}
  end.

(** [while len(buf) > max_lines: buf.popleft()]; popping an empty deque
    raises [IndexError] (reachable only for a negative [max_lines]). *)
Fixpoint trim_old_lines (max_lines : Z) (buf : list Line) : Result (list Line) :=
  if (max_lines <? Z.of_nat (length buf))%Z then
    match buf with
    | [] => Raise {| exc_type := lit "IndexError"; exc_msg := lit "pop from an empty deque" |}
    | _ :: buf' => trim_old_lines max_lines buf'
    end
  else Ok buf.

(** [for ln, st in buf: text_obj.append(ln, style=st)] *)
Definition append_lines (t : Text) (buf : list Line) : Text :=
  fold_left (fun t l => text_append t (fst l) (snd l)) buf t.

Definition _append_stream_chunk (buf : list Line) (chunk : str) (text_obj : Text)
    (style : option str) (max_lines : Z) : Result (list Line * Text) :=
  (* 1. split new data into logical lines (keep newlines) *)
  let buf := buf ++ map (fun ln => (ln, style)) (splitlines chunk) in
  (* 2. trim old lines *)
  (buf <- trim_old_lines max_lines buf ;;
   (* 3. rebuild the Rich Text object *)
   let text_obj := empty_text in
   let text_obj :=
     if (Z.of_nat (length buf) =? max_lines)%Z
     then text_append text_obj ELLIPSIS (Some (lit "dim"))
     else text_obj in
   Ok (buf, append_lines text_obj buf))%result.

(** Feeding a sequence of chunks through one buffer, each with the default
    [max_lines] unless stated. *)
Fixpoint feed (max_lines : Z) (style : option str) (chunks : list str)
    (st : list Line * Text) : Result (list Line * Text) :=
  match chunks with
  | [] => Ok st
  | c :: rest =>
      (st' <- _append_stream_chunk (fst st) c (snd st) style max_lines ;;
       feed max_lines style rest st')%result
  end.

(** The number of lines a text shows. *)
Definition visible_lines (t : Text) : list str := splitlines (plain t).

(** A chunk that is one complete line: no line boundary inside, and at its
    end a newline (LF, or CR LF) or another boundary that [Text.append]
    keeps. *)
Definition kept_break (c : N) : bool := is_linebreak c && negb (is_control c).

Definition no_break (s : str) : bool := forallb (fun c => negb (is_linebreak c)) s.

Definition terminated_line (c : str) : bool :=
  match rev c with
  | t :: r =>
      kept_break t &&
      no_break (match r with
                | p :: r' => if N.eqb t 10 && N.eqb p 13 then r' else r
                | [] => r
                end)
  | [] => false
  end.

(** What the text shows for a buffer: the marker when the buffer is
    exactly full, then the lines as [Text.append] keeps them. *)
Definition render_plain (max_lines : Z) (texts : list str) : str :=
  (if (Z.of_nat (length texts) =? max_lines)%Z then ELLIPSIS else [])
  ++ concat (map strip_control_codes texts).

(** The last [n] elements of a list: what a deque trimmed to [n] keeps. *)
Definition keep_last {A} (n : nat) (l : list A) : list A := skipn (length l - n) l.

(** A buffer state that holds the last [STREAM_MAX_LINES] of the lines
    received so far and shows the rendering of what it holds. *)
Definition rendered (lines : list str) (s : list Line * Text) : Prop :=
  map fst (fst s) = keep_last (Z.to_nat STREAM_MAX_LINES) lines
  /\ plain (snd s) = render_plain STREAM_MAX_LINES (map fst (fst s)).

(** A line as the text keeps it: no boundary inside, one at the end. *)
Definition simple_line (l : str) : Prop :=
  exists body t, l = body ++ [t] /\ no_break body = true
                 /\ is_linebreak t = true /\ t <> 13%N.

End Stream.
Import Stream.

(* ------------------------------------------------------------------ *)
(** ** The external API, as the module consumes it *)

Module Api.

(** Modelled from the spec: [morphcloud.api.Snapshot] is not among the
    sources.  Of a stored snapshot the module reads the [id] (an opaque
    string the store assigns) and the [digest] (the client-chosen key,
    possibly absent). *)
Record ApiSnapshot := { id : str; digest : option str }.

(** Modelled from the spec: [morphcloud.api.Instance], a running machine
    booted from the snapshot [snapshot_id]. *)
Record Instance := { instance_id : str; snapshot_id : str }.

(** Modelled from the spec: the state behind [client]: the snapshot store
    in its own order, the instances started so far, and the counter from
    which the store draws fresh ids.  [op_calls] counts how often
    [Snapshot.apply] has invoked an operation function. *)
Record World := {
  store : list ApiSnapshot;
  started : list Instance;
  next_id : nat;
  op_calls : nat }.

Definition digest_is (d : str) (s : ApiSnapshot) : bool :=
  match digest s with
  | Some d' => PyStr.eqb d' d
  | None => false
  end.

(** Modelled from the spec: [client.snapshots.list(digest=d)] queries the
    store by digest and returns the matching records in the store's order. *)
Definition snapshots_list (d : str) (w : World) : list ApiSnapshot :=
  filter (digest_is d) (store w).

(** Modelled from the spec: [s.delete()] removes the record from the store. *)
Definition snapshot_delete (s : ApiSnapshot) (w : World) : World :=
  {| store := filter (fun s' => negb (PyStr.eqb (id s') (id s))) (store w);
     started := started w; next_id := next_id w; op_calls := op_calls w |}.

Definition fresh_id (prefix : string) (n : nat) : str :=
  lit prefix ++ str_of_int (Z.of_nat n).

(** Modelled from the spec: [client.instances.start(snapshot_id=...)]. *)
Definition instances_start (sid : str) (w : World) : Instance * World :=
  let inst := {| instance_id := fresh_id "morphvm_" (next_id w); snapshot_id := sid |} in
  (inst, {| store := store w; started := started w ++ [inst];
            next_id := S (next_id w); op_calls := op_calls w |}).

(** Modelled from the spec: [instance.snapshot(digest=d)] finalizes the
    instance into a new record tagged with [d], stored after the others. *)
Definition instance_snapshot (inst : Instance) (d : option str) (w : World)
    : ApiSnapshot * World :=
  let snap := {| id := fresh_id "snapshot_" (next_id w); digest := d |} in
  (snap, {| store := store w ++ [snap]; started := started w;
            next_id := S (next_id w); op_calls := op_calls w |}).

Definition count_call (w : World) : World :=
  {| store := store w; started := started w; next_id := next_id w;
     op_calls := S (op_calls w) |}.

End Api.
Import Api.

(* ------------------------------------------------------------------ *)
(** ** The remote stream ([ssh_stream], [instance_exec]) *)

Module Remote.

(** [StreamTuple]: the union of [("stdout", str)], [("stdin", str)] and
    [("exit_code", int)]. *)
Inductive StreamTuple :=
| Stdout (txt : str)
| Stdin (txt : str)
| Exit_code (code : Z).

(** The first component of the pair. *)
Definition channel (m : StreamTuple) : str :=
  match m with
  | Stdout _ => lit "stdout"
  | Stdin _ => lit "stdin"
  | Exit_code _ => lit "exit_code"
  end.

Definition is_exit_code (m : StreamTuple) : bool :=
  match m with Exit_code _ => true | _ => false end.

Definition bytes := list Byte.byte.

(** The paramiko channel as [ssh_stream] drives it.  The remote side runs
    on its own, so every call hands back the channel as it is afterwards;
    [sleep] is what the channel becomes over one [time.sleep(poll)]. *)
Class Channel (C : Type) := {
  recv_ready : C -> bool * C;
  recv : N -> C -> bytes * C;
  recv_stderr_ready : C -> bool * C;
  recv_stderr : N -> C -> bytes * C;
  exit_status_ready : C -> bool * C;
  recv_exit_status : C -> Z * C;
  sleep : C -> C;
  close : C -> C }.

(** A generator run for a bounded number of loop iterations: what it has
    yielded, and its final value if it ran to its end within the bound. *)
Definition Gen (A : Type) : Type := list StreamTuple * option A.

Definition gret {A} (a : A) : Gen A := ([], Some a).
Definition gyield (m : StreamTuple) : Gen unit := ([m], Some tt).
Definition gpending {A} : Gen A := ([], None).
Definition gbind {A B} (g : Gen A) (k : A -> Gen B) : Gen B :=
  match snd g with
  | Some a => (fst g ++ fst (k a), snd (k a))
  | None => (fst g, None)
  end.

Declare Scope gen_scope.
Delimit Scope gen_scope with gen.
Notation "x <- g ;; k" := (gbind g (fun x => k))
  (at level 100, g at next level, right associativity) : gen_scope.

Definition finished {A} (g : Gen A) : bool :=
  match snd g with Some _ => true | None => false end.

Section SshStream.
Context {C : Type} `{Channel C}.
(** [data.decode(encoding, errors="replace")] *)
Variable decode : bytes -> str.
Variable chunk_size : N.

Definition nonempty (data : bytes) : bool :=
  match data with [] => false | _ :: _ => true end.

(** [while chan.recv_ready(): ...] *)
Fixpoint drain_stdout (fuel : nat) (chan : C) : Gen C :=
  match fuel with
  | O => gpending
  | S fuel' =>
      let (ready, chan) := recv_ready chan in
      if ready then
        let (data, chan) := recv chunk_size chan in
        (_ <- (if nonempty data then gyield (Stdout (decode data)) else gret tt) ;;
         drain_stdout fuel' chan)%gen
      else gret chan
  end.

(** [while chan.recv_stderr_ready(): ...] *)
Fixpoint drain_stderr (fuel : nat) (chan : C) : Gen C :=
  match fuel with
  | O => gpending
  | S fuel' =>
      let (ready, chan) := recv_stderr_ready chan in
      if ready then
        let (data, chan) := recv_stderr chunk_size chan in
        (_ <- (if nonempty data then gyield (Stdin (decode data)) else gret tt) ;;
         drain_stderr fuel' chan)%gen
      else gret chan
  end.

(** [chan.exit_status_ready() and not chan.recv_ready() and not
    chan.recv_stderr_ready()], evaluated left to right. *)
Definition exit_and_drained (chan : C) : bool * C :=
  let (e, chan) := exit_status_ready chan in
  if e then
    let (r, chan) := recv_ready chan in
    if negb r then
      let (r', chan) := recv_stderr_ready chan in
      (negb r', chan)
    else (false, chan)
  else (false, chan).

(** The [while True:] loop. *)
Fixpoint poll_loop (fuel : nat) (chan : C) : Gen C :=
  match fuel with
  | O => gpending
  | S fuel' =>
      (chan <- drain_stdout fuel' chan ;;
       chan <- drain_stderr fuel' chan ;;
       let (stop, chan) := exit_and_drained chan in
       if stop then gret chan else poll_loop fuel' (sleep chan))%gen
  end.

(** [ssh_stream], from the channel on which the command was started. *)
Definition ssh_stream (fuel : nat) (chan : C) : Gen C :=
  (chan <- poll_loop fuel chan ;;
   let (code, chan) := recv_exit_status chan in
   _ <- gyield (Exit_code code) ;;
   gret (close chan))%gen.
End SshStream.

(** The same stream with the two data channels exchanged. *)
Definition swap_channel (m : StreamTuple) : StreamTuple :=
  match m with
  | Stdout txt => Stdin txt
  | Stdin txt => Stdout txt
  | Exit_code code => Exit_code code
  end.

Definition relabel {A} (g : Gen A) : Gen A := (map swap_channel (fst g), snd g).

(** The chunks a consumer that stops at the exit code is handed, in the
    order of arrival, whatever their channel. *)
Fixpoint data_texts (msgs : list StreamTuple) : list str :=
  match msgs with
  | [] => []
  | Stdout txt :: rest => txt :: data_texts rest
  | Stdin txt :: rest => txt :: data_texts rest
  | Exit_code _ :: _ => []
  end.

(** The exit code at which a consumer of the stream returns, if any. *)
Fixpoint first_exit_code (msgs : list StreamTuple) : option Z :=
  match msgs with
  | [] => None
  | Exit_code code :: _ => Some code
  | _ :: rest => first_exit_code rest
  end.

Definition no_exit_code : PyExc :=
  {| exc_type := lit "RuntimeError";
     exc_msg := lit "SSH stream did not yield exit code." |}.

Section InstanceExec.
Variable St : Type.
Variables on_stdout on_stderr : str -> St -> Result St.

(** The [for msg in ...: match msg: ...] loop over what was yielded:
    [Some code] when it returned, [None] when it ran off the end. *)
Fixpoint dispatch (msgs : list StreamTuple) (s : St) : Result (option Z) * St :=
  match msgs with
  | [] => (Ok None, s)
  | Stdout txt :: rest =>
      match on_stdout txt s with
      | Ok s' => dispatch rest s'
      | Raise e => (Raise e, s)
      end
  | Stdin txt :: rest =>
      match on_stderr txt s with
      | Ok s' => dispatch rest s'
      | Raise e => (Raise e, s)
      end
  | Exit_code code :: _ => (Ok (Some code), s)
  end.

(** The body of [instance_exec] on a stream: [None] while the stream is
    neither exhausted nor has produced its exit code within the bound. *)
Definition exec_stream {A} (g : Gen A) (s : St) : option (Result Z * St) :=
  match dispatch (fst g) s with
  | (Raise e, s') => Some (Raise e, s')
  | (Ok (Some code), s') => Some (Ok code, s')
  | (Ok None, s') =>
      if finished g then Some (Raise no_exit_code, s') else None
  end.
End InstanceExec.

Section Exec.
Context {C : Type} `{Channel C}.
Variable decode : bytes -> str.
(** [instance.ssh()], [transport.open_session()] and
    [chan.exec_command(command)] where none of them raises: the channel
    the command runs on. *)
Variable exec_command : Instance -> str -> C.

Definition instance_exec {St} (fuel : nat) (instance : Instance) (command : str)
    (on_stdout on_stderr : str -> St -> Result St) (s : St) : option (Result Z * St) :=
  exec_stream on_stdout on_stderr
    (ssh_stream decode 4096 fuel (exec_command instance command)) s.
End Exec.

End Remote.
Import Remote.

(* ------------------------------------------------------------------ *)
(** ** The [Snapshot] class: keys, [apply], [run], [copy_], [do] *)

Module Layer.

Definition PALETTE : list (string * string) :=
  [("bg", "#2D2D2D"); ("success", "#CEFF1A"); ("error", "#F23F42");
   ("accent", "#F2777A"); ("running", "yellow")]%string.

Fixpoint palette_get (kind : string) (p : list (string * string)) : string :=
  match p with
  | [] => "white"
  | (k, v) :: p' => if String.eqb k kind then v else palette_get kind p'
  end.

Definition _colour (kind : string) : str := lit (palette_get kind PALETTE).

Record Snapshot := { snapshot : ApiSnapshot }.

(** [invalidate: InvalidateFn | bool] *)
Inductive Invalidate :=
| InvBool (b : bool)
| InvFn (f : Snapshot -> bool).

(** [if invalidate:] *)
Definition inv_truthy (i : Invalidate) : bool :=
  match i with InvBool b => b | InvFn _ => true end.

(** [invalidate if isinstance(invalidate, Callable) else lambda _: invalidate] *)
Definition invalidate_fn (i : Invalidate) : Snapshot -> bool :=
  match i with InvFn f => f | InvBool b => fun _ => b end.

(** [x or ""] *)
Definition or_empty (o : option str) : str :=
  match o with
  | Some d => if truthy d then d else lit ""
  | None => lit ""
  end.

Definition key_to_digest (self : Snapshot) (key : str) : str :=
  or_empty (digest (snapshot self)) ++ id (snapshot self) ++ key.

(** [if key:] for [key: str | None] *)
Definition key_truthy (key : option str) : option str :=
  match key with
  | Some k => if truthy k then Some k else None
  | None => None
  end.

(** The operation function handed to [apply]: it may not return within
    the bound ([None]), raise, return nothing or return an instance. *)
Definition Func : Type :=
  Instance -> World -> option (Result (option Instance) * World).

(** [start_fn]: absent, a callable, or anything else.  A callable is
    called without argument and what it returns is entered; anything else
    is entered as it is.  Calling and entering run foreign code, which
    may raise: a context manager made by [contextlib.contextmanager] is
    itself callable, so it takes the callable branch, where the call
    without argument raises [TypeError]. *)
Inductive StartFn :=
| StartNone
| StartCallable (f : World -> Result Instance * World)
| StartManager (cm : World -> Result Instance * World).

Definition start (self : Snapshot) (w : World) : Instance * World :=
  instances_start (id (snapshot self)) w.

(** [for s in snaps: if invalidate_fn(Snapshot(s)): s.delete() else: valid.append(s)] *)
Fixpoint purge (f : Snapshot -> bool) (snaps : list ApiSnapshot) (w : World)
    : list ApiSnapshot * World :=
  match snaps with
  | [] => ([], w)
  | s :: rest =>
      if f {| snapshot := s |} then purge f rest (snapshot_delete s w)
      else let (valid, w') := purge f rest w in (s :: valid, w')
  end.

(** Lines 402-412 of [apply]: the lookup, after invalidation if asked. *)
Definition cache_check (self : Snapshot) (key : option str) (invalidate : Invalidate)
    (w : World) : list ApiSnapshot * World :=
  match key_truthy key with
  | Some k =>
      let digest := key_to_digest self k in
      let snaps := snapshots_list digest w in
      if inv_truthy invalidate then purge (invalidate_fn invalidate) snaps w
      else (snaps, w)
  | None => ([], w)
  end.

(** Lines 414-420 of [apply]: the context manager chosen and entered. *)
Definition enter (self : Snapshot) (start_fn : StartFn) (w : World)
    : Result Instance * World :=
  match start_fn with
  | StartNone => let (inst, w) := start self w in (Ok inst, w)
  | StartCallable f => f w
  | StartManager cm => cm w
  end.

(** Lines 414-428 of [apply]: start, run the operation, finalize. *)
Definition execute_layer (self : Snapshot) (func : Func) (key : option str)
    (start_fn : StartFn) (w : World) : option (Result Snapshot * World) :=
  match enter self start_fn w with
  | (Raise e, w) => Some (Raise e, w)
  | (Ok inst, w) =>
      match func inst (count_call w) with
      | None => None
      | Some (Raise e, w) => Some (Raise e, w)
      | Some (Ok res, w) =>
          let inst := match res with None => inst | Some r => r end in
          let (snap, w) :=
            instance_snapshot inst
              (match key_truthy key with
               | Some k => Some (key_to_digest self k)
               | None => None
               end) w in
          Some (Ok {| snapshot := snap |}, w)
      end
  end.

Definition apply (self : Snapshot) (func : Func) (key : option str)
    (start_fn : StartFn) (invalidate : Invalidate) (w : World)
    : option (Result Snapshot * World) :=
  match cache_check self key invalidate w with
  | (s :: _, w) => Some (Ok {| snapshot := s |}, w)
  | ([], w) => execute_layer self func key start_fn w
  end.

(** The message of the exception [run] raises on a non-zero exit code. *)
Definition failure_message (command : str) (exit_code : Z) (out_text : Text) : str :=
  lit "Command execution failed: " ++ command ++ lit " exit=" ++ str_of_int exit_code
  ++ lit " stdout=" ++ plain out_text ++ lit " stderr=" ++ plain out_text.

Section Run.
Context {C : Type} `{Channel C}.
Variable decode : bytes -> str.
Variable exec_command : Instance -> str -> C.

Definition _out (c : str) (s : list Line * Text) : Result (list Line * Text) :=
  _append_stream_chunk (fst s) c (snd s) None STREAM_MAX_LINES.

Definition _err (c : str) (s : list Line * Text) : Result (list Line * Text) :=
  _append_stream_chunk (fst s) c (snd s) (Some (_colour "error")) STREAM_MAX_LINES.

(** The end of the closure [execute] of [run]: what it makes of the
    outcome of [instance_exec]. *)
Definition execute_result (command : str)
    (r : option (Result Z * (list Line * Text))) : option (Result (option Instance)) :=
  match r with
  | None => None
  | Some (Raise e, _) => Some (Raise e)
  | Some (Ok exit_code, (_, out_text)) =>
      if (exit_code =? 0)%Z then Some (Ok None)
      else Some (Raise {| exc_type := lit "Exception";
                          exc_msg := failure_message command exit_code out_text |})
  end.

(** The closure [execute] of [run]; the buffer and the text are its own. *)
Definition execute (fuel : nat) (command : str) (instance : Instance)
    : option (Result (option Instance)) :=
  execute_result command
    (instance_exec decode exec_command fuel instance command _out _err
       ([], empty_text)).

Definition run (fuel : nat) (self : Snapshot) (command : str)
    (invalidate : Invalidate) (w : World) : option (Result Snapshot * World) :=
  apply self
    (fun inst w => match execute fuel command inst with
                   | Some r => Some (r, w)
                   | None => None
                   end)
    (Some command) StartNone invalidate w.
End Run.

(** What the text of [run] shows once the stream [msgs] has been
    consumed: the rendering of the last [STREAM_MAX_LINES] lines of all
    the chunks, whichever channel each came on. *)
Definition shown (msgs : list StreamTuple) : str :=
  render_plain STREAM_MAX_LINES
    (keep_last (Z.to_nat STREAM_MAX_LINES) (concat (map splitlines (data_texts msgs)))).

(** *** [copy_]: where a single file is put *)

(** [sftp.stat(dest)]: the attributes, of which [S_ISDIR] is read, or
    [FileNotFoundError]. *)
Inductive StatOutcome :=
| StatMode (is_dir : bool)
| StatNotFound.

(** The branch [if src_path.is_file():] of the main copy logic: the
    [remote_file] that [copy_file] hands to [sftp.put]. *)
Definition file_target (sftp_stat : str -> StatOutcome) (src dest : str) : str :=
  if endswith_slash dest then
    rstrip_slash dest ++ lit "/" ++ path_name src
  else
    match sftp_stat dest with
    | StatMode true => dest ++ lit "/" ++ path_name src
    | StatMode false => dest
    | StatNotFound => dest
    end.

(** *** [do]: the key *)

Record VerifyFn := { __name__ : str; check : Instance -> Result unit }.

(** [verify]: absent, one callable, or a list of callables. *)
Inductive VerifyArg :=
| VerifyNone
| VerifyOne (f : VerifyFn)
| VerifyList (fs : list VerifyFn).

(** [[verify] if isinstance(verify, Callable) else verify or []] *)
Definition verify_funcs (verify : VerifyArg) : list VerifyFn :=
  match verify with
  | VerifyOne f => [f]
  | VerifyList fs => fs
  | VerifyNone => []
  end.

Definition do_descriptor (instructions : str) (verify : VerifyArg) : str :=
  instructions ++ join (lit ",") (map __name__ (verify_funcs verify)).

Definition do_digest (self : Snapshot) (instructions : str) (verify : VerifyArg) : str :=
  key_to_digest self (do_descriptor instructions verify).

(** A function name as Python produces them: not empty, no comma. *)
Definition plain_name (n : str) : bool :=
  truthy n && negb (existsb (N.eqb 44) n).

(** A dict from strings to strings, in insertion order, and [d[k] = v]. *)
Definition Statuses := list (str * str).

Fixpoint dict_set (k v : str) (d : Statuses) : Statuses :=
  match d with
  | [] => [(k, v)]
  | (k', v') :: d' => if PyStr.eqb k' k then (k', v) :: d' else (k', v') :: dict_set k v d'
  end.

(** *** [VerificationPanel] *)

Definition running_status : str := [9203%N] ++ lit " running".

(** [status.startswith(mark)] for a mark of one character *)
Definition starts_with (mark : N) (status : str) : bool :=
  match status with
  | c :: _ => N.eqb c mark
  | [] => false
  end.

Definition check_mark : N := 9989.
Definition cross_mark : N := 10060.

(** Of the panel: the statuses by function name and the border style. *)
Record VerificationPanel := { _statuses : Statuses; border_style : str }.

(** [{v.__name__: "... running" for v in verify_funcs}], border in the
    running colour. *)
Definition VerificationPanel_init (verify_funcs : list VerifyFn) : VerificationPanel :=
  {| _statuses := fold_left (fun d v => dict_set (__name__ v) running_status d)
                    verify_funcs [];
     border_style := _colour "running" |}.

(** [_make_table]: one row per entry, the status wrapped in its colour. *)
Definition _make_table (statuses : Statuses) : list (str * str) :=
  map (fun row =>
         let colour :=
           if starts_with check_mark (snd row) then _colour "success"
           else if starts_with cross_mark (snd row) then _colour "error"
           else _colour "running" in
         (fst row,
          lit "[" ++ colour ++ lit "]" ++ snd row ++ lit "[/" ++ colour ++ lit "]"))
      statuses.

Definition update (fn_name new_status : str) (p : VerificationPanel) : VerificationPanel :=
  let statuses := dict_set fn_name new_status (_statuses p) in
  {| _statuses := statuses;
     border_style :=
       if forallb (fun row => starts_with check_mark (snd row)) statuses
       then _colour "success"
       else if existsb (fun row => starts_with cross_mark (snd row)) statuses
       then _colour "error"
       else border_style p |}.

End Layer.
Import Layer.

(* ------------------------------------------------------------------ *)
(** ** A scripted channel

    A channel whose remote side is a script: what has arrived and not yet
    been read, the exit status once known, and what arrives over each
    further [sleep].  It instantiates [Channel] for the executable
    examples. *)

Module Sim.

Inductive Arrival :=
| ArrOut (data : bytes)
| ArrErr (data : bytes)
| ArrExit (code : Z).

Record SimChan := {
  out_buf : bytes;
  err_buf : bytes;
  status : option Z;
  arrivals : list Arrival;
  closed : bool }.

Definition arrive (a : Arrival) (c : SimChan) : SimChan :=
  match a with
  | ArrOut d => {| out_buf := out_buf c ++ d; err_buf := err_buf c; status := status c;
                   arrivals := arrivals c; closed := closed c |}
  | ArrErr d => {| out_buf := out_buf c; err_buf := err_buf c ++ d; status := status c;
                   arrivals := arrivals c; closed := closed c |}
  | ArrExit z => {| out_buf := out_buf c; err_buf := err_buf c; status := Some z;
                    arrivals := arrivals c; closed := closed c |}
  end.

Definition sim_sleep (c : SimChan) : SimChan :=
  match arrivals c with
  | [] => c
  | a :: rest =>
      arrive a {| out_buf := out_buf c; err_buf := err_buf c; status := status c;
                  arrivals := rest; closed := closed c |}
  end.

#[export] Instance sim_channel : Channel SimChan := {
  recv_ready c := (nonempty (out_buf c), c);
  recv n c :=
    (firstn (N.to_nat n) (out_buf c),
     {| out_buf := skipn (N.to_nat n) (out_buf c); err_buf := err_buf c;
        status := status c; arrivals := arrivals c; closed := closed c |});
  recv_stderr_ready c := (nonempty (err_buf c), c);
  recv_stderr n c :=
    (firstn (N.to_nat n) (err_buf c),
     {| out_buf := out_buf c; err_buf := skipn (N.to_nat n) (err_buf c);
        status := status c; arrivals := arrivals c; closed := closed c |});
  exit_status_ready c := (match status c with Some _ => true | None => false end, c);
  recv_exit_status c := (match status c with Some z => z | None => (-1)%Z end, c);
  sleep := sim_sleep;
  close c := {| out_buf := out_buf c; err_buf := err_buf c; status := status c;
                arrivals := arrivals c; closed := true |} }.

Definition script (l : list Arrival) : SimChan :=
  {| out_buf := []; err_buf := []; status := None; arrivals := l; closed := false |}.

Definition ascii_bytes (s : string) : bytes := map byte_of_ascii (list_ascii_of_string s).

(** Decoding with [errors="replace"], exact on ASCII input: any other
    byte shows as U+FFFD. *)
Definition decode_replace (data : bytes) : str :=
  map (fun b => let n := Byte.to_N b in if (n <? 128)%N then n else 65533%N) data.

(** A remote on which every command prints a line and succeeds. *)
Definition remote_ok (_ : Instance) (_ : str) : SimChan :=
  script [ArrOut (ascii_bytes "done
"); ArrExit 0].

(** A remote on which every command complains on stderr and exits 17. *)
Definition remote_17 (_ : Instance) (_ : str) : SimChan :=
  script [ArrOut (ascii_bytes "building
"); ArrErr (ascii_bytes "boom
"); ArrExit 17].

(** A remote whose command never exits. *)
Definition remote_hang (_ : Instance) (_ : str) : SimChan :=
  script [ArrOut (ascii_bytes "waiting
")].

(** A scripted channel on which no exit status has arrived or will. *)
Definition never_exits (c : SimChan) : Prop :=
  status c = None /\ forallb (fun a => match a with ArrExit _ => false | _ => true end)
                       (arrivals c) = true.

End Sim.
Import Sim.

(* ------------------------------------------------------------------ *)
(** ** Concrete snapshots and worlds for the examples *)

Module Ex.

Definition base0 : Snapshot :=
  {| snapshot := {| id := lit "snap0"; digest := Some (lit "base") |} |}.

Definition cached_make : ApiSnapshot :=
  {| id := lit "snap1"; digest := Some (lit "basesnap0make") |}.

Definition world_with (l : list ApiSnapshot) : World :=
  {| store := l; started := []; next_id := 7; op_calls := 0 |}.

End Ex.
Import Ex.

(* ------------------------------------------------------------------ *)
(** ** The rest of the module: further notions and operations *)

Module More.

(** Every style span of a text lies inside its plain text. *)
Definition spans_within (t : Text) : Prop :=
  Forall (fun sp => span_start sp <= span_end sp /\ span_end sp <= length (plain t))
    (spans t).

(** The pieces a sequence of chunks is split into, chunk by chunk. *)
Definition pieces (chunks : list str) : list str := concat (map splitlines chunks).

(** A data element that carries the decoding of a non-empty read. *)
Definition from_nonempty_read (decode : bytes -> str) (m : StreamTuple) : Prop :=
  match m with
  | Stdout txt | Stdin txt => exists data, data <> [] /\ txt = decode data
  | Exit_code _ => True
  end.

(** An operation function that leaves the snapshot store alone, as the
    closures of [run] and [copy_] do. *)
Definition keeps_store (func : Func) : Prop :=
  forall inst w r w', func inst w = Some (r, w') -> store w' = store w.

(** *** [Snapshot.create] *)

(** Modelled from the spec: [client.snapshots.create(..., digest=d, ...)]
    stores a new record under the digest and returns it. *)
Definition snapshots_create (d : str) (w : World) : ApiSnapshot * World :=
  let snap := {| id := fresh_id "snapshot_" (next_id w); digest := Some d |} in
  (snap, {| store := store w ++ [snap]; started := started w;
            next_id := S (next_id w); op_calls := op_calls w |}).

(** [for s in snaps: if invalidate_fn(Snapshot(s)): s.delete()] *)
Fixpoint delete_matching (f : Snapshot -> bool) (snaps : list ApiSnapshot) (w : World)
    : World :=
  match snaps with
  | [] => w
  | s :: rest =>
      if f {| snapshot := s |} then delete_matching f rest (snapshot_delete s w)
      else delete_matching f rest w
  end.

(** [Snapshot.create(name, ..., invalidate)]; image and sizes go to the
    store unread. *)
Definition create (name : str) (invalidate : Invalidate) (w : World) : Snapshot * World :=
  let w :=
    if inv_truthy invalidate
    then delete_matching (invalidate_fn invalidate) (snapshots_list name w) w
    else w in
  let (snap, w) := snapshots_create name w in
  ({| snapshot := snap |}, w).

(** *** [do]: the names it reads and the cache logic *)

(** The names bound at module level: what the [import] statements bring
    in, the constants, the functions and the classes. *)
Definition module_names : list string :=
  ["annotations"; "stat"; "time"; "typing"; "threading"; "Path"; "deque";
   "contextmanager"; "Iterator"; "Tuple"; "Union"; "Literal"; "paramiko";
   "Align"; "Console"; "Group"; "Live"; "Panel"; "Table"; "Text"; "Theme";
   "Tree"; "MorphCloudClient"; "Instance"; "_Snapshot"; "PALETTE"; "_colour";
   "Renderer"; "renderer"; "STREAM_MAX_LINES"; "ELLIPSIS"; "Line";
   "_append_stream_chunk"; "prettify_run"; "VerificationPanel"; "StreamTuple";
   "ssh_stream"; "instance_exec"; "client"; "InvalidateFn"; "Snapshot"]%string.

Definition name_error (n : string) : PyExc :=
  {| exc_type := lit "NameError";
     exc_msg := lit "name '" ++ lit n ++ lit "' is not defined" |}.

(** Reading a name that is neither local nor a builtin: bound at module
    level, or [NameError]. *)
Definition global_name (n : string) : Result unit :=
  if existsb (String.eqb n) module_names then Ok tt else Raise (name_error n).

(** [do].  The key is computed and the panel added, then line 649 reads
    the global [Agent]; what follows is the lookup of the key and the
    call of [apply], where [func] stands for the closure [run_agent]. *)
Definition do_ (self : Snapshot) (instructions : str) (verify : VerifyArg)
    (invalidate : Invalidate) (func : Func) (w : World)
    : option (Result Snapshot * World) :=
  let digest := do_digest self instructions verify in
  match global_name "Agent" with
  | Raise e => Some (Raise e, w)
  | Ok _ =>
      let snaps_exist := snapshots_list digest w in
      match snaps_exist with
      | s :: _ =>
          if negb (inv_truthy invalidate) then Some (Ok {| snapshot := s |}, w)
          else apply self func (Some digest) StartNone invalidate w
      | [] => apply self func (Some digest) StartNone invalidate w
      end
  end.

(** *** [copy_]: the key and the calls made over SFTP *)

Definition copy_key (src dest : str) : str := lit "copy-" ++ src ++ lit "-" ++ dest.

(** What the local path is: a regular file, a directory with its entries
    in [iterdir] order, or something else that exists. *)
#[warnings="-register-all"]
Inductive Node :=
| NFile
| NDir (items : list (str * Node))
| NOther.

(** The calls [execute_copy] makes on the remote side. *)
Inductive SftpCall :=
| EnsureDir (remote_path : str)
| Put (remote_file : str)
| Chmod (remote_file : str).

Section Copy.
(** [str(Path(p).parent)] *)
Variable parent_of : str -> str.
Variable sftp_stat : str -> StatOutcome.

(** [copy_file]: the parent directory is ensured unless the path is its
    own parent; the permissions are tried after the transfer. *)
Definition copy_file (remote_file : str) : list SftpCall :=
  (if PyStr.eqb (parent_of remote_file) remote_file then []
   else [EnsureDir (parent_of remote_file)])
  ++ [Put remote_file; Chmod remote_file].

(** [copy_file] and [copy_directory] on what the local path is; an entry
    that is neither file nor directory is passed over. *)
Fixpoint copy_node (n : Node) (remote : str) : list SftpCall :=
  match n with
  | NFile => copy_file remote
  | NDir items =>
      EnsureDir remote ::
      (fix each (l : list (str * Node)) : list SftpCall :=
         match l with
         | [] => []
         | (name, item) :: l' => copy_node item (remote ++ lit "/" ++ name) ++ each l'
         end) items
  | NOther => []
  end.

(** The body of [execute_copy]: [src_node] is what [src] is locally, if
    it exists. *)
Definition copy_calls (src_node : option Node) (src dest : str)
    : Result (list SftpCall) :=
  match src_node with
  | None =>
      Raise {| exc_type := lit "FileNotFoundError";
               exc_msg := lit "Source path does not exist: " ++ src |}
  | Some NFile => Ok (copy_file (file_target sftp_stat src dest))
  | Some (NDir items) =>
      if endswith_slash dest then
        Ok (copy_node (NDir items) (rstrip_slash dest ++ lit "/" ++ path_name src))
      else
        match sftp_stat dest with
        | StatMode true => Ok (copy_node (NDir items) (dest ++ lit "/" ++ path_name src))
        | StatMode false =>
            Raise {| exc_type := lit "ValueError";
                     exc_msg := lit "Cannot copy directory to non-directory: " ++ dest |}
        | StatNotFound => Ok (copy_node (NDir items) dest)
        end
  | Some NOther => Ok []
  end.

Definition execute_copy (src_node : option Node) (src dest : str) : Func :=
  fun _ w =>
    match copy_calls src_node src dest with
    | Ok _ => Some (Ok None, w)
    | Raise e => Some (Raise e, w)
    end.

Definition copy_ (self : Snapshot) (src_node : option Node) (src dest : str)
    (invalidate : Invalidate) (w : World) : option (Result Snapshot * World) :=
  apply self (execute_copy src_node src dest) (Some (copy_key src dest)) StartNone
    invalidate w.
End Copy.



(** *** Opening the session: [instance.ssh()] and the head of [ssh_stream] *)

(** [assert transport is not None, "SSH transport must be connected"] *)
Definition transport_not_connected : PyExc :=
  {| exc_type := lit "AssertionError";
     exc_msg := lit "SSH transport must be connected" |}.

Section Session.
Context {C : Type} `{Channel C}.
Variable decode : bytes -> str.
Variable Transport : Type.
(** [with instance.ssh() as ssh] and [ssh._client.get_transport()]:
    connecting may raise, and a client may have no transport. *)
Variable ssh_transport : Instance -> Result (option Transport).
(** [transport.open_session()] and [chan.exec_command(command)]: either may
    raise; otherwise the channel on which the command runs. *)
Variable open_session : Transport -> str -> Result C.

(** Lines 235-238 of [ssh_stream]. *)
Definition open_channel (transport : option Transport) (command : str) : Result C :=
  match transport with
  | None => Raise transport_not_connected
  | Some t => open_session t command
  end.

(** [ssh_stream] from its first line: the exception that ends it before
    anything is yielded, or the stream of the opened channel. *)
Definition ssh_stream_of (fuel : nat) (transport : option Transport) (command : str)
    : Result (Gen C) :=
  match open_channel transport command with
  | Raise e => Raise e
  | Ok chan => Ok (ssh_stream decode 4096 fuel chan)
  end.

(** [instance_exec] from its first line. *)
Definition instance_exec_of {St} (fuel : nat) (instance : Instance) (command : str)
    (on_stdout on_stderr : str -> St -> Result St) (s : St) : option (Result Z * St) :=
  match ssh_transport instance with
  | Raise e => Some (Raise e, s)
  | Ok transport =>
      match ssh_stream_of fuel transport command with
      | Raise e => Some (Raise e, s)
      | Ok g => exec_stream on_stdout on_stderr g s
      end
  end.

(** The closure [execute] of [run] over it. *)
Definition execute_of (fuel : nat) (command : str) (instance : Instance)
    : option (Result (option Instance)) :=
  execute_result command
    (instance_exec_of fuel instance command _out _err ([], empty_text)).
End Session.







(** *** [resize]: the key *)

(** [f"{x}"] for [x: int | None] *)
Definition format_size (x : option Z) : str :=
  match x with
  | Some z => str_of_int z
  | None => lit "None"
  end.

(** [f"resize-{vcpus}-{memory}-{disk_size}"] *)
Definition resize_key (vcpus memory disk_size : option Z) : str :=
  lit "resize-" ++ format_size vcpus ++ lit "-" ++ format_size memory
  ++ lit "-" ++ format_size disk_size.

(** A formatted size: an optional sign before characters that are not
    hyphens. *)
Definition size_token (t : str) : Prop :=
  exists body, body <> [] /\ ~ In 45%N body /\ (t = body \/ t = 45%N :: body).

(** *** [start]: the metadata of the instance *)

(** A Python dict with string keys and values, in insertion order. *)
Definition Dict := list (str * str).

Fixpoint dict_get (k : str) (d : Dict) : option str :=
  match d with
  | [] => None
  | (k', v) :: d' => if PyStr.eqb k' k then Some v else dict_get k d'
  end.

(** [d.update(m)] *)
Definition dict_update (d m : Dict) : Dict :=
  fold_left (fun d kv => dict_set (fst kv) (snd kv) d) m d.

(** The metadata [start] hands to [client.instances.start]:
    [dict(root=self.snapshot.id)], updated with [metadata] if that is
    given and not empty. *)
Definition start_metadata (self : Snapshot) (metadata : option Dict) : Dict :=
  let default_metadata := [(lit "root", id (snapshot self))] in
  match metadata with
  | Some (kv :: m) => dict_update default_metadata (kv :: m)
  | _ => default_metadata
  end.

End More.
Import More.

(* ================================================================== *)
(** * Properties *)


(* ------------------------------------------------------------------ *)
(** ** Strings *)

Lemma eqb_refl (a : str) : PyStr.eqb a a = true.
Proof.
  induction a as [|x a IH]; simpl; [reflexivity|].
  now rewrite N.eqb_refl, IH.
Qed.

Lemma eqb_eq (a b : str) : PyStr.eqb a b = true <-> a = b.
Proof.
  split; [|intros ->; apply eqb_refl].
  revert b; induction a as [|x a IH]; intros [|y b]; simpl; try discriminate; auto.
  intros E. apply andb_true_iff in E as [E1 E2].
  apply N.eqb_eq in E1. apply IH in E2. congruence.
Qed.

Lemma truthy_nonempty (s : str) : truthy s = true <-> s <> [].
Proof. destruct s; simpl; split; congruence. Qed.

Lemma or_empty_default (o : option str) :
  or_empty o = match o with Some d => d | None => [] end.
Proof. destruct o as [[|c d]|]; reflexivity. Qed.

Lemma contains_middle (pre needle post : str) : contains needle (pre ++ needle ++ post).
Proof. now exists pre, post. Qed.

(* ------------------------------------------------------------------ *)
(** ** [do]: the names it reads *)

(** C9 (the code diverges): no call of [do] gets as far as its verifier.
    Line 649 reads the global [Agent], which the module does not bind, so
    every call raises [NameError] there: before the lookup in the store,
    hence also when the step is cached, with the store and the started
    instances as they were.  The name [_agent_local], which the verifier
    reads at line 659, is not bound either. *)
Theorem do_raises_NameError (self : Snapshot) (instructions : str) (verify : VerifyArg)
    (invalidate : Invalidate) (func : Func) (w : World) :
  do_ self instructions verify invalidate func w
  = Some (Raise (name_error "Agent"), w)
  /\ exc_msg (name_error "Agent") = lit "name 'Agent' is not defined"
  /\ global_name "_agent_local" = Raise (name_error "_agent_local").
Proof. repeat split. Qed.

(* ------------------------------------------------------------------ *)
(** ** The streaming buffer *)

Lemma trim_old_lines_ok (m : Z) (buf : list Line) :
  (0 <= m)%Z ->
  trim_old_lines m buf = Ok (skipn (length buf - Z.to_nat m) buf).
Proof.
  intros Hm. induction buf as [|x buf IH].
  - simpl. destruct (m <? 0)%Z eqn:E; [apply Z.ltb_lt in E; lia | reflexivity].
  - cbn [trim_old_lines].
    destruct (m <? Z.of_nat (length (x :: buf)))%Z eqn:E.
    + apply Z.ltb_lt in E. rewrite IH. simpl length in *.
      replace (S (length buf) - Z.to_nat m) with (S (length buf - Z.to_nat m)) by lia.
      reflexivity.
    + apply Z.ltb_ge in E. simpl length in *.
      replace (S (length buf) - Z.to_nat m) with 0 by lia. reflexivity.
Qed.

Lemma plain_text_append (t : Text) (x : str) (st : option str) :
  plain (text_append t x st) = plain t ++ strip_control_codes x.
Proof.
  destruct x as [|c x]; simpl; [now rewrite app_nil_r | reflexivity].
Qed.

Lemma plain_append_lines (buf : list Line) (t : Text) :
  plain (append_lines t buf)
  = plain t ++ concat (map (fun l => strip_control_codes (fst l)) buf).
Proof.
  unfold append_lines. revert t.
  induction buf as [|l buf IH]; intros t; simpl.
  - now rewrite app_nil_r.
  - rewrite IH, plain_text_append, <- app_assoc. reflexivity.
Qed.

Lemma strip_ELLIPSIS : strip_control_codes ELLIPSIS = ELLIPSIS.
Proof. reflexivity. Qed.

Lemma append_stream_chunk_ok (buf : list Line) (chunk : str) (t : Text)
    (style : option str) (m : Z) :
  (0 <= m)%Z ->
  exists t',
    _append_stream_chunk buf chunk t style m
    = Ok (skipn (length buf + length (splitlines chunk) - Z.to_nat m)
            (buf ++ map (fun ln => (ln, style)) (splitlines chunk)), t')
    /\ plain t'
       = render_plain m
           (map fst (skipn (length buf + length (splitlines chunk) - Z.to_nat m)
                       (buf ++ map (fun ln => (ln, style)) (splitlines chunk)))).
Proof.
  intros Hm. unfold _append_stream_chunk.
  rewrite trim_old_lines_ok by assumption.
  rewrite length_app, length_map. cbn [rbind].
  eexists; split; [reflexivity|].
  rewrite plain_append_lines. unfold render_plain.
  rewrite length_map, map_map.
  destruct (Z.of_nat _ =? m)%Z; reflexivity.
Qed.

Lemma STREAM_MAX_LINES_nonneg : (0 <= STREAM_MAX_LINES)%Z.
Proof. unfold STREAM_MAX_LINES; lia. Qed.

Lemma keep_last_app {A} (n : nat) (a b : list A) :
  keep_last n (keep_last n a ++ b) = keep_last n (a ++ b).
Proof.
  unfold keep_last.
  destruct (Nat.le_gt_cases (length a) n) as [Hle|Hgt].
  - replace (length a - n) with 0 by lia. reflexivity.
  - rewrite !length_app, length_skipn.
    replace (length a - (length a - n) + length b - n) with (length b) by lia.
    replace (length a + length b - n) with ((length a - n) + length b) by lia.
    rewrite (Nat.add_comm (length a - n)), <- skipn_skipn.
    rewrite (skipn_app (length a - n) a b).
    replace (length a - n - length a) with 0 by lia. reflexivity.
Qed.

(* ------------------------------------------------------------------ *)
(** ** [instance_exec] with the callbacks of [run] *)

Lemma callback_rendered (c : str) (style : option str) (lines : list str)
    (s : list Line * Text) :
  rendered lines s ->
  exists s',
    _append_stream_chunk (fst s) c (snd s) style STREAM_MAX_LINES = Ok s'
    /\ rendered (lines ++ splitlines c) s'.
Proof.
  intros [Hb Hp].
  destruct (append_stream_chunk_ok (fst s) c (snd s) style STREAM_MAX_LINES_nonneg)
    as (t' & E & P).
  eexists; split; [exact E|]. split; cbn [fst snd]; [|exact P].
  rewrite <- keep_last_app, <- Hb. unfold keep_last at 1.
  rewrite <- skipn_map, map_app, map_map, length_app, !length_map. cbn [fst].
  rewrite map_id. reflexivity.
Qed.

Lemma rendered_initial : rendered [] ([], empty_text).
Proof. split; reflexivity. Qed.

Lemma data_texts_swap (msgs : list StreamTuple) :
  data_texts (map swap_channel msgs) = data_texts msgs.
Proof.
  induction msgs as [|[t|t|c] msgs IH]; simpl; congruence.
Qed.

Lemma first_exit_code_swap (msgs : list StreamTuple) :
  first_exit_code (map swap_channel msgs) = first_exit_code msgs.
Proof.
  induction msgs as [|[t|t|c] msgs IH]; simpl; congruence.
Qed.

Lemma first_exit_code_none (msgs : list StreamTuple) :
  existsb is_exit_code msgs = false <-> first_exit_code msgs = None.
Proof.
  induction msgs as [|[t|t|c] msgs IH]; simpl; try tauto.
  split; discriminate.
Qed.

(** With the callbacks of [run] the loop of [instance_exec] never raises:
    it returns at the first exit code, having merged every chunk before
    it into the one buffer. *)
Lemma dispatch_run_callbacks (msgs : list StreamTuple) :
  forall lines s,
    rendered lines s ->
    exists s',
      dispatch _out _err msgs s = (Ok (first_exit_code msgs), s')
      /\ rendered (lines ++ concat (map splitlines (data_texts msgs))) s'.
Proof.
  induction msgs as [|[t|t|c] msgs IH]; intros lines s R; cbn [dispatch].
  - exists s. simpl. now rewrite app_nil_r.
  - destruct (callback_rendered t None R) as (s1 & E & R1).
    unfold _out. rewrite E.
    destruct (IH _ _ R1) as (s' & E' & R').
    exists s'. split; [exact E'|]. simpl. now rewrite app_assoc.
  - destruct (callback_rendered t (Some (_colour "error")) R) as (s1 & E & R1).
    unfold _err. rewrite E.
    destruct (IH _ _ R1) as (s' & E' & R').
    exists s'. split; [exact E'|]. simpl. now rewrite app_assoc.
  - exists s. simpl. now rewrite app_nil_r.
Qed.

Lemma exec_stream_run_callbacks {A} (g : Gen A) :
  exists s',
    plain (snd s') = shown (fst g)
    /\ exec_stream _out _err g ([], empty_text)
       = match first_exit_code (fst g) with
         | Some code => Some (Ok code, s')
         | None => if finished g then Some (Raise no_exit_code, s') else None
         end.
Proof.
  destruct (dispatch_run_callbacks (fst g) rendered_initial) as (s' & E & [Rb Rp]).
  exists s'. split.
  - rewrite Rp, Rb. reflexivity.
  - unfold exec_stream. rewrite E.
    destruct (first_exit_code (fst g)); reflexivity.
Qed.

Lemma execute_result_run_callbacks {A} (command : str) (g : Gen A) :
  execute_result command (exec_stream _out _err g ([], empty_text))
  = match first_exit_code (fst g) with
    | Some code =>
        if (code =? 0)%Z then Some (Ok None)
        else Some (Raise {| exc_type := lit "Exception";
                            exc_msg :=
                              lit "Command execution failed: " ++ command
                              ++ lit " exit=" ++ str_of_int code
                              ++ lit " stdout=" ++ shown (fst g)
                              ++ lit " stderr=" ++ shown (fst g) |})
    | None => if finished g then Some (Raise no_exit_code) else None
    end.
Proof.
  destruct (exec_stream_run_callbacks g) as ([b t] & P & E).
  rewrite E. cbn [snd] in P.
  destruct (first_exit_code (fst g)) as [code|]; cbn [execute_result].
  - destruct (code =? 0)%Z; [reflexivity|].
    unfold failure_message. rewrite P. reflexivity.
  - destruct (finished g); reflexivity.
Qed.

(* ------------------------------------------------------------------ *)
(** ** Substrings *)

Lemma containsb_sound (needle hay : str) :
  containsb needle hay = true -> contains needle hay.
Proof.
  assert (P : forall p s, is_prefix p s = true -> exists post, s = p ++ post).
  { induction p as [|x p IH]; intros [|y s] E; simpl in E; try discriminate.
    - now exists [].
    - now exists (y :: s).
    - apply andb_true_iff in E as [E1 E2]. apply N.eqb_eq in E1. subst y.
      destruct (IH _ E2) as [post ->]. now exists post. }
  induction hay as [|c hay IH]; simpl; intros E.
  - rewrite orb_false_r in E. destruct (P _ _ E) as [post ->]. now exists [], post.
  - apply orb_true_iff in E as [E|E].
    + destruct (P _ _ E) as [post ->]. now exists [], post.
    + destruct (IH E) as (pre & post & ->). now exists (c :: pre), post.
Qed.

Lemma contains_complete (needle hay : str) :
  contains needle hay -> containsb needle hay = true.
Proof.
  assert (P : forall p post, is_prefix p (p ++ post) = true).
  { induction p as [|x p IH]; intros post; simpl; [reflexivity|].
    now rewrite N.eqb_refl, IH. }
  intros (pre & post & ->).
  induction pre as [|c pre IH].
  - cbn [app]. pose proof (P needle post) as Q.
    destruct (needle ++ post); simpl; rewrite Q; reflexivity.
  - cbn [app containsb]. rewrite IH. apply orb_true_r.
Qed.

(* ------------------------------------------------------------------ *)
(** ** The snapshot store under [apply] *)

Lemma snapshot_delete_incl (s : ApiSnapshot) (w : World) :
  incl (store (snapshot_delete s w)) (store w).
Proof. intros x Hx. simpl in Hx. now apply filter_In in Hx. Qed.

Lemma purge_incl (f : Snapshot -> bool) (snaps : list ApiSnapshot) :
  forall w, incl (store (snd (purge f snaps w))) (store w).
Proof.
  induction snaps as [|s snaps IH]; intros w; simpl; [apply incl_refl|].
  destruct (f {| snapshot := s |}).
  - eapply incl_tran; [apply IH | apply snapshot_delete_incl].
  - specialize (IH w). destruct (purge f snaps w); exact IH.
Qed.

Lemma purge_next_id (f : Snapshot -> bool) (snaps : list ApiSnapshot) :
  forall w, next_id (snd (purge f snaps w)) = next_id w
            /\ started (snd (purge f snaps w)) = started w
            /\ op_calls (snd (purge f snaps w)) = op_calls w.
Proof.
  induction snaps as [|s snaps IH]; intros w; simpl; [auto|].
  destruct (f {| snapshot := s |}).
  - apply (IH (snapshot_delete s w)).
  - specialize (IH w). destruct (purge f snaps w); exact IH.
Qed.

Lemma cache_check_incl (self : Snapshot) (key : option str) (inv : Invalidate) (w : World) :
  incl (store (snd (cache_check self key inv w))) (store w).
Proof.
  unfold cache_check. destruct (key_truthy key); [|apply incl_refl].
  destruct (inv_truthy inv); [apply purge_incl | apply incl_refl].
Qed.

(** Unconditional invalidation deletes every record it is handed. *)
Lemma purge_all (snaps : list ApiSnapshot) :
  forall w,
    purge (fun _ => true) snaps w
    = ([], {| store := filter (fun s' => negb (existsb (fun s => PyStr.eqb (id s') (id s)) snaps))
                         (store w);
              started := started w; next_id := next_id w; op_calls := op_calls w |}).
Proof.
  induction snaps as [|s snaps IH]; intros w; cbn [purge].
  - f_equal. destruct w; simpl. f_equal.
    induction store0 as [|x l IHl]; simpl; congruence.
  - rewrite IH. f_equal. simpl. f_equal.
    induction (store w) as [|x l IHl]; simpl; [reflexivity|].
    destruct (PyStr.eqb (id x) (id s)); simpl; [exact IHl|].
    destruct (existsb _ snaps); simpl; congruence.
Qed.

Lemma purge_all_clears (d : str) (w : World) :
  snapshots_list d (snd (purge (fun _ => true) (snapshots_list d w) w)) = [].
Proof.
  rewrite purge_all. unfold snapshots_list. cbn [snd store].
  assert (G : forall l L,
    (forall x, In x l -> digest_is d x = true -> In x L) ->
    filter (digest_is d)
      (filter (fun s' => negb (existsb (fun s => PyStr.eqb (id s') (id s)) L)) l) = []).
  { induction l as [|x l IH]; intros L HL; simpl; [reflexivity|].
    destruct (existsb (fun s => PyStr.eqb (id x) (id s)) L) eqn:E; simpl.
    - apply IH. intros y Hy. apply HL. now right.
    - destruct (digest_is d x) eqn:D.
      + exfalso. assert (I : In x L) by (apply HL; [now left | exact D]).
        assert (E' : existsb (fun s => PyStr.eqb (id x) (id s)) L = true).
        { apply existsb_exists. exists x. split; [exact I | apply eqb_refl]. }
        congruence.
      + apply IH. intros y Hy. apply HL. now right. }
  apply G. intros x Hx D. apply filter_In. now split.
Qed.

Lemma digest_is_refl (d : str) (i : str) :
  digest_is d {| id := i; digest := Some d |} = true.
Proof. unfold digest_is. simpl. apply eqb_refl. Qed.

(** C1 (amended): with a non-empty key, invalidation off and a store that
    answers the lookup of the derived digest with [s :: rest], [apply]
    returns the [Snapshot] of [s] and leaves the world as it was: no
    instance is started, the operation function is not invoked (any
    function gives this result) and no snapshot is created. *)
Theorem apply_cache_hit (self : Snapshot) (func : Func) (k : str) (start_fn : StartFn)
    (w : World) (s : ApiSnapshot) (rest : list ApiSnapshot) :
  k <> [] ->
  snapshots_list (key_to_digest self k) w = s :: rest ->
  apply self func (Some k) start_fn (InvBool false) w
  = Some (Ok {| snapshot := s |}, w).
Proof.
  intros Hk Hit. unfold apply, cache_check. cbn [key_truthy].
  apply truthy_nonempty in Hk. rewrite Hk. cbn [inv_truthy].
  rewrite Hit. reflexivity.
Qed.

Lemma apply_cache_hit_witness :
  apply base0 (fun _ _ => None) (Some (lit "make")) StartNone (InvBool false)
    (world_with [cached_make])
  = Some (Ok {| snapshot := cached_make |}, world_with [cached_make]).
Proof.
  apply (@apply_cache_hit base0 (fun _ _ => None) (lit "make") StartNone
           (world_with [cached_make]) cached_make []).
  - discriminate.
  - reflexivity.
Defined.

(** C1, as stated, fails for the key [""], which is not [None]: although
    the store holds a record under the derived digest, [apply] starts an
    instance, invokes the operation once and stores a new snapshot. *)
Lemma apply_empty_key_is_not_cached :
  snapshots_list (key_to_digest base0 (lit "")) (world_with [{| id := lit "snap1"; digest := Some (lit "basesnap0") |}])
  = [{| id := lit "snap1"; digest := Some (lit "basesnap0") |}]
  /\ apply base0 (fun _ w => Some (Ok None, w)) (Some (lit "")) StartNone (InvBool false)
       (world_with [{| id := lit "snap1"; digest := Some (lit "basesnap0") |}])
     = Some (Ok {| snapshot := {| id := lit "snapshot_8"; digest := None |} |},
             {| store := [{| id := lit "snap1"; digest := Some (lit "basesnap0") |};
                          {| id := lit "snapshot_8"; digest := None |}];
                started := [{| instance_id := lit "morphvm_7"; snapshot_id := lit "snap0" |}];
                next_id := 9; op_calls := 1 |}).
Proof. split; vm_compute; reflexivity. Qed.

(* ------------------------------------------------------------------ *)
(** ** [run] on an arbitrary channel *)

Section RunProperties.
Context {C : Type} `{Channel C}.
Variable decode : bytes -> str.
Variable exec_command : Instance -> str -> C.

(** The fault of [execute] for a non-zero exit code. *)
Lemma execute_nonzero_exit (fuel : nat) (command : str) (instance : Instance) (code : Z) :
  first_exit_code (fst (ssh_stream decode 4096 fuel (exec_command instance command)))
  = Some code ->
  code <> 0%Z ->
  execute decode exec_command fuel command instance
  = Some (Raise
      {| exc_type := lit "Exception";
         exc_msg :=
           lit "Command execution failed: " ++ command
           ++ lit " exit=" ++ str_of_int code
           ++ lit " stdout="
           ++ shown (fst (ssh_stream decode 4096 fuel (exec_command instance command)))
           ++ lit " stderr="
           ++ shown (fst (ssh_stream decode 4096 fuel (exec_command instance command))) |}).
Proof.
  intros E NZ. apply Z.eqb_neq in NZ.
  unfold execute, instance_exec.
  rewrite execute_result_run_callbacks, E, NZ. reflexivity.
Qed.

(** C10: when a command ends with a non-zero exit code, the message of
    the fault shows one and the same text after [stdout=] and after
    [stderr=]: the rendering of the single bounded buffer into which the
    chunks of both channels went in their order of arrival.  Exchanging
    the channels of all chunks gives the very same fault. *)
Theorem failure_message_shows_one_merged_buffer (fuel : nat) (command : str)
    (instance : Instance) (code : Z) :
  first_exit_code (fst (ssh_stream decode 4096 fuel (exec_command instance command)))
  = Some code ->
  code <> 0%Z ->
  execute decode exec_command fuel command instance
  = Some (Raise
      {| exc_type := lit "Exception";
         exc_msg :=
           lit "Command execution failed: " ++ command
           ++ lit " exit=" ++ str_of_int code
           ++ lit " stdout="
           ++ shown (fst (ssh_stream decode 4096 fuel (exec_command instance command)))
           ++ lit " stderr="
           ++ shown (fst (ssh_stream decode 4096 fuel (exec_command instance command))) |})
  /\ execute_result command
       (exec_stream _out _err
          (relabel (ssh_stream decode 4096 fuel (exec_command instance command)))
          ([], empty_text))
     = execute decode exec_command fuel command instance.
Proof.
  intros E NZ. apply Z.eqb_neq in NZ.
  unfold execute, instance_exec.
  rewrite !execute_result_run_callbacks.
  unfold relabel. cbn [fst snd]. rewrite first_exit_code_swap, E, NZ.
  unfold shown. rewrite data_texts_swap. split; reflexivity.
Qed.

(** C4: a command that is executed (the cache gave no hit) and ends with
    a non-zero exit code makes [run] raise; the message contains the
    digits of the exit code and the text of the command, and the store
    afterwards holds nothing it did not hold before the call. *)
Theorem run_nonzero_exit_raises (fuel : nat) (self : Snapshot) (command : str)
    (invalidate : Invalidate) (w w1 : World) (code : Z) :
  cache_check self (Some command) invalidate w = ([], w1) ->
  first_exit_code
    (fst (ssh_stream decode 4096 fuel (exec_command (fst (start self w1)) command)))
  = Some code ->
  code <> 0%Z ->
  exists e w',
    run decode exec_command fuel self command invalidate w = Some (Raise e, w')
    /\ exc_type e = lit "Exception"
    /\ contains (str_of_int code) (exc_msg e)
    /\ contains command (exc_msg e)
    /\ store w' = store w1
    /\ incl (store w') (store w).
Proof.
  intros Miss E NZ.
  pose proof (execute_nonzero_exit fuel command (fst (start self w1)) E NZ) as X.
  unfold run, apply. rewrite Miss. unfold execute_layer, enter.
  destruct (start self w1) as [inst w2] eqn:S1. cbn [fst] in X. rewrite X.
  eexists; eexists; split; [reflexivity|].
  cbn [exc_type exc_msg]. split; [reflexivity|].
  split; [|split; [|split]].
  - exists (lit "Command execution failed: " ++ command ++ lit " exit="). eexists.
    rewrite <- !app_assoc. reflexivity.
  - exists (lit "Command execution failed: "). eexists. reflexivity.
  - unfold start, instances_start in S1. inversion S1. reflexivity.
  - unfold start, instances_start in S1. inversion S1. cbn [count_call store].
    pose proof (cache_check_incl self (Some command) invalidate w) as I.
    rewrite Miss in I. exact I.
Qed.

End RunProperties.

Section RunInvalidate.
Context {C : Type} `{Channel C}.
Variable decode : bytes -> str.
Variable exec_command : Instance -> str -> C.

(** C3 (amended): for a non-empty command, [run(cmd, invalidate=True)]
    first deletes every snapshot stored under the key of (base, cmd), so
    that the command is executed against a store with no entry under the
    key; when the command then exits with 0 the call returns, and the
    store holds exactly one snapshot under the key, the one returned. *)
Theorem run_invalidate_rebuilds_the_entry (fuel : nat) (self : Snapshot)
    (command : str) (w : World) :
  command <> [] ->
  first_exit_code
    (fst (ssh_stream decode 4096 fuel
            (exec_command
               (fst (start self (snd (cache_check self (Some command) (InvBool true) w))))
               command)))
  = Some 0%Z ->
  exists w1 snap w',
    cache_check self (Some command) (InvBool true) w = ([], w1)
    /\ snapshots_list (key_to_digest self command) w1 = []
    /\ (forall s, In s (snapshots_list (key_to_digest self command) w) ->
                  ~ In s (store w1))
    /\ run decode exec_command fuel self command (InvBool true) w
       = execute_layer self
           (fun inst w => match execute decode exec_command fuel command inst with
                          | Some r => Some (r, w)
                          | None => None
                          end)
           (Some command) StartNone w1
    /\ run decode exec_command fuel self command (InvBool true) w = Some (Ok snap, w')
    /\ digest (snapshot snap) = Some (key_to_digest self command)
    /\ snapshots_list (key_to_digest self command) w' = [snapshot snap].
Proof.
  intros Hk E.
  assert (T : truthy command = true) by now apply truthy_nonempty.
  assert (CC : cache_check self (Some command) (InvBool true) w
               = ([], snd (purge (fun _ => true)
                            (snapshots_list (key_to_digest self command) w) w))).
  { unfold cache_check. cbn [key_truthy]. rewrite T. cbn [inv_truthy invalidate_fn].
    rewrite purge_all. reflexivity. }
  rewrite CC in E. cbn [snd] in E.
  set (w1 := snd (purge (fun _ => true)
                    (snapshots_list (key_to_digest self command) w) w)) in *.
  assert (Clear : snapshots_list (key_to_digest self command) w1 = [])
    by apply purge_all_clears.
  assert (R : run decode exec_command fuel self command (InvBool true) w
              = execute_layer self
                  (fun inst w => match execute decode exec_command fuel command inst with
                                 | Some r => Some (r, w)
                                 | None => None
                                 end)
                  (Some command) StartNone w1).
  { unfold run, apply. rewrite CC. reflexivity. }
  assert (X : execute decode exec_command fuel command (fst (start self w1))
              = Some (Ok None)).
  { unfold execute, instance_exec. rewrite execute_result_run_callbacks, E. reflexivity. }
  exists w1.
  unfold execute_layer, enter in R.
  destruct (start self w1) as [inst w2] eqn:S1. cbn [fst] in X. rewrite X in R.
  cbn [key_truthy] in R. rewrite T in R.
  destruct (instance_snapshot inst (Some (key_to_digest self command)) (count_call w2))
    as [snap w3] eqn:S3.
  exists {| snapshot := snap |}, w3.
  split; [exact CC|]. split; [exact Clear|]. split; [|split; [|split; [exact R|]]].
  - intros s Hs Hin. apply filter_In in Hs as [_ D].
    assert (I : In s (snapshots_list (key_to_digest self command) w1))
      by (apply filter_In; now split).
    rewrite Clear in I. exact I.
  - unfold run, apply. rewrite CC. reflexivity.
  - unfold instance_snapshot in S3. inversion S3; subst snap w3. cbn [snapshot digest].
    split; [reflexivity|].
    unfold snapshots_list. cbn [store count_call].
    unfold start, instances_start in S1. inversion S1; subst inst w2. cbn [store].
    rewrite filter_app. fold (snapshots_list (key_to_digest self command) w1).
    rewrite Clear. cbn [filter app]. rewrite digest_is_refl. reflexivity.
Qed.

End RunInvalidate.

Lemma run_invalidate_rebuilds_the_entry_witness :
  exists w1 snap w',
    cache_check base0 (Some (lit "make")) (InvBool true)
      (world_with [cached_make; cached_make]) = ([], w1)
    /\ run decode_replace remote_ok 10 base0 (lit "make") (InvBool true)
         (world_with [cached_make; cached_make]) = Some (Ok snap, w')
    /\ snapshots_list (key_to_digest base0 (lit "make")) w' = [snapshot snap].
Proof.
  destruct (@run_invalidate_rebuilds_the_entry SimChan sim_channel decode_replace
              remote_ok 10 base0 (lit "make") (world_with [cached_make; cached_make]))
    as (w1 & snap & w' & A & _ & _ & _ & B & _ & D).
  - discriminate.
  - vm_compute. reflexivity.
  - exists w1, snap, w'. repeat split; assumption.
Defined.

(** C3, as stated, fails for the empty command: nothing is deleted, and
    the two snapshots stored under the key are still there after the
    call, the new snapshot carrying no digest at all. *)
Lemma run_invalidate_empty_command_deletes_nothing :
  snapshots_list (key_to_digest base0 (lit ""))
    (world_with [{| id := lit "snap1"; digest := Some (lit "basesnap0") |};
                 {| id := lit "snap2"; digest := Some (lit "basesnap0") |}])
  = [{| id := lit "snap1"; digest := Some (lit "basesnap0") |};
     {| id := lit "snap2"; digest := Some (lit "basesnap0") |}]
  /\ exists w',
       run decode_replace remote_ok 10 base0 (lit "") (InvBool true)
         (world_with [{| id := lit "snap1"; digest := Some (lit "basesnap0") |};
                      {| id := lit "snap2"; digest := Some (lit "basesnap0") |}])
       = Some (Ok {| snapshot := {| id := lit "snapshot_8"; digest := None |} |}, w')
       /\ snapshots_list (key_to_digest base0 (lit "")) w'
          = [{| id := lit "snap1"; digest := Some (lit "basesnap0") |};
             {| id := lit "snap2"; digest := Some (lit "basesnap0") |}].
Proof.
  split; [vm_compute; reflexivity|].
  eexists. split; vm_compute; reflexivity.
Qed.

Lemma failure_message_shows_one_merged_buffer_witness :
  execute decode_replace remote_17 10 (lit "make")
    {| instance_id := lit "morphvm_7"; snapshot_id := lit "snap0" |}
  = Some (Raise
      {| exc_type := lit "Exception";
         exc_msg := lit "Command execution failed: make exit=17 stdout=building
boom
 stderr=building
boom
" |}).
Proof.
  destruct (@failure_message_shows_one_merged_buffer SimChan sim_channel decode_replace
              remote_17 10 (lit "make")
              {| instance_id := lit "morphvm_7"; snapshot_id := lit "snap0" |} 17%Z)
    as [A _].
  - vm_compute. reflexivity.
  - discriminate.
  - rewrite A. vm_compute. reflexivity.
Defined.

Lemma run_nonzero_exit_raises_witness :
  exists e w',
    run decode_replace remote_17 10 base0 (lit "make") (InvBool false) (world_with [])
    = Some (Raise e, w')
    /\ contains (lit "17") (exc_msg e)
    /\ contains (lit "make") (exc_msg e)
    /\ store w' = [].
Proof.
  destruct (@run_nonzero_exit_raises SimChan sim_channel decode_replace remote_17 10
              base0 (lit "make") (InvBool false) (world_with []) (world_with []) 17%Z)
    as (e & w' & A & _ & B & D & E & _).
  - reflexivity.
  - vm_compute. reflexivity.
  - discriminate.
  - exists e, w'. repeat split; assumption.
Defined.

(* ------------------------------------------------------------------ *)
(** ** Content keys *)

Lemma key_to_digest_same_base (self : Snapshot) (k1 k2 : str) :
  key_to_digest self k1 = key_to_digest self k2 <-> k1 = k2.
Proof.
  split; [|now intros ->].
  unfold key_to_digest. intros E.
  apply app_inv_head in E. now apply app_inv_head in E.
Qed.

Lemma key_to_digest_same_id (i : str) (d1 d2 : option str) (k : str) :
  key_to_digest {| snapshot := {| id := i; digest := d1 |} |} k
  = key_to_digest {| snapshot := {| id := i; digest := d2 |} |} k
  <-> or_empty d1 = or_empty d2.
Proof.
  unfold key_to_digest. cbn [snapshot id digest]. split.
  - intros E. now apply app_inv_tail in E.
  - now intros ->.
Qed.

Lemma join_cons (sep p q : str) (rest : list str) :
  join sep (p :: q :: rest) = p ++ sep ++ join sep (q :: rest).
Proof. reflexivity. Qed.

(** A name followed by nothing or by a comma: the name is determined. *)
Lemma name_split (p1 p2 t1 t2 : str) :
  ~ In 44%N p1 -> ~ In 44%N p2 ->
  (t1 = [] \/ exists u, t1 = 44%N :: u) ->
  (t2 = [] \/ exists u, t2 = 44%N :: u) ->
  p1 ++ t1 = p2 ++ t2 -> p1 = p2 /\ t1 = t2.
Proof.
  revert p2. induction p1 as [|x p1 IH]; intros [|y p2] N1 N2 T1 T2 E; cbn [app] in E.
  - now split.
  - exfalso. destruct T1 as [->|[u ->]]; [discriminate|].
    inversion E; subst y. apply N2. now left.
  - exfalso. destruct T2 as [->|[u ->]]; [discriminate|].
    inversion E; subst x. apply N1. now left.
  - inversion E; subst y.
    destruct (IH p2) with (5 := H1) as [-> ->]; auto.
    + intros I. apply N1. now right.
    + intros I. apply N2. now right.
Qed.

Lemma plain_name_spec (n : str) :
  plain_name n = true -> n <> [] /\ ~ In 44%N n.
Proof.
  unfold plain_name. intros E. apply andb_true_iff in E as [E1 E2].
  split; [now apply truthy_nonempty|].
  intros I. apply negb_true_iff in E2.
  assert (X : existsb (N.eqb 44) n = true).
  { apply existsb_exists. exists 44%N. split; [exact I | reflexivity]. }
  congruence.
Qed.

Lemma join_tail_shape (l : list str) (p : str) :
  forallb plain_name (p :: l) = true ->
  exists t, join (lit ",") (p :: l) = p ++ t
            /\ (l = [] -> t = [])
            /\ (l <> [] -> t = 44%N :: join (lit ",") l).
Proof.
  destruct l as [|q l]; intros _.
  - exists []. simpl. rewrite app_nil_r. split; [reflexivity|]. split; congruence.
  - exists (lit "," ++ join (lit ",") (q :: l)). rewrite join_cons.
    split; [reflexivity|]. split; [discriminate|]. intros _. reflexivity.
Qed.

Lemma join_names_injective (l1 : list str) :
  forall l2,
    forallb plain_name l1 = true -> forallb plain_name l2 = true ->
    join (lit ",") l1 = join (lit ",") l2 -> l1 = l2.
Proof.
  induction l1 as [|p1 l1 IH]; intros [|p2 l2] F1 F2 E.
  - reflexivity.
  - exfalso. destruct (join_tail_shape l2 p2 F2) as (t & Et & _).
    cbn [forallb] in F2. apply andb_true_iff in F2 as [P2 _].
    apply plain_name_spec in P2 as [NE _].
    rewrite Et in E. cbn [join] in E. destruct p2; [congruence | discriminate].
  - exfalso. destruct (join_tail_shape l1 p1 F1) as (t & Et & _).
    cbn [forallb] in F1. apply andb_true_iff in F1 as [P1 _].
    apply plain_name_spec in P1 as [NE _].
    rewrite Et in E. cbn [join] in E. destruct p1; [congruence | discriminate].
  - destruct (join_tail_shape l1 p1 F1) as (t1 & E1 & Z1 & S1).
    destruct (join_tail_shape l2 p2 F2) as (t2 & E2 & Z2 & S2).
    cbn [forallb] in F1, F2.
    apply andb_true_iff in F1 as [P1 F1]. apply andb_true_iff in F2 as [P2 F2].
    apply plain_name_spec in P1 as [_ N1]. apply plain_name_spec in P2 as [_ N2].
    rewrite E1, E2 in E.
    assert (T1 : t1 = [] \/ exists u, t1 = 44%N :: u).
    { destruct l1; [left; now apply Z1 | right; eexists; apply S1; discriminate]. }
    assert (T2 : t2 = [] \/ exists u, t2 = 44%N :: u).
    { destruct l2; [left; now apply Z2 | right; eexists; apply S2; discriminate]. }
    destruct (@name_split p1 p2 t1 t2 N1 N2 T1 T2 E) as [-> Et]. f_equal.
    destruct l1 as [|q1 l1], l2 as [|q2 l2].
    + reflexivity.
    + exfalso. rewrite Z1, S2 in Et by congruence. discriminate.
    + exfalso. rewrite S1, Z2 in Et by congruence. discriminate.
    + rewrite S1, S2 in Et by discriminate. inversion Et. now apply IH.
Qed.

(** C2 (amended): the key is a function of base and descriptor, and on one
    base it separates descriptors; with id and descriptor fixed it
    separates base digests ([None] read as the empty digest); with base
    and instructions fixed, the key of [do] separates the lists of
    verify-function names (names non-empty and without comma). *)
Theorem content_key_sensitivity :
  (forall self k1 k2,
      key_to_digest self k1 = key_to_digest self k2 <-> k1 = k2)
  /\ (forall i d1 d2 k,
        key_to_digest {| snapshot := {| id := i; digest := d1 |} |} k
        = key_to_digest {| snapshot := {| id := i; digest := d2 |} |} k
        <-> or_empty d1 = or_empty d2)
  /\ (forall self instructions v1 v2,
        forallb plain_name (map __name__ (verify_funcs v1)) = true ->
        forallb plain_name (map __name__ (verify_funcs v2)) = true ->
        (do_digest self instructions v1 = do_digest self instructions v2
         <-> map __name__ (verify_funcs v1) = map __name__ (verify_funcs v2))).
Proof.
  split; [exact key_to_digest_same_base|]. split; [exact key_to_digest_same_id|].
  intros self instructions v1 v2 F1 F2. unfold do_digest, do_descriptor.
  rewrite key_to_digest_same_base. split.
  - intros E. apply app_inv_head in E. now apply join_names_injective.
  - now intros ->.
Qed.

Lemma content_key_sensitivity_witness :
  do_digest base0 (lit "install nginx")
    (VerifyList [{| __name__ := lit "port_open"; check := fun _ => Ok tt |}])
  <> do_digest base0 (lit "install nginx")
       (VerifyList [{| __name__ := lit "port_open"; check := fun _ => Ok tt |};
                    {| __name__ := lit "page_served"; check := fun _ => Ok tt |}]).
Proof.
  intros E.
  apply (proj2 (proj2 content_key_sensitivity)) in E; [discriminate E | | ]; reflexivity.
Defined.

(** C2, as stated, fails: the parts of a key are concatenated without a
    separator, so two different bases with one command, and two snapshot
    ids with two commands, arrive at the same key. *)
Lemma content_key_collision :
  key_to_digest {| snapshot := {| id := lit "bc"; digest := Some (lit "a") |} |} (lit "make")
  = key_to_digest {| snapshot := {| id := lit "c"; digest := Some (lit "ab") |} |} (lit "make")
  /\ lit "bc" <> lit "c" /\ lit "a" <> lit "ab"
  /\ key_to_digest {| snapshot := {| id := lit "snapshot_1"; digest := None |} |} (lit "0make")
     = key_to_digest {| snapshot := {| id := lit "snapshot_10"; digest := None |} |} (lit "make")
  /\ lit "snapshot_1" <> lit "snapshot_10" /\ lit "0make" <> lit "make".
Proof.
  repeat split; try reflexivity; discriminate.
Qed.

(* ------------------------------------------------------------------ *)
(** ** [copy_]: the target of a single file *)




Section FileTarget.
Variable parent_of : str -> str.
Variable sftp_stat : str -> StatOutcome.




End FileTarget.


(* ------------------------------------------------------------------ *)
(** ** The stream of [ssh_stream] *)

Lemma gbind_fst {A B} (g : Gen A) (k : A -> Gen B) :
  fst (gbind g k) = fst g ++ match snd g with Some a => fst (k a) | None => [] end.
Proof. unfold gbind. destruct (snd g); simpl; [reflexivity | now rewrite app_nil_r]. Qed.

Lemma gbind_snd {A B} (g : Gen A) (k : A -> Gen B) :
  snd (gbind g k) = match snd g with Some a => snd (k a) | None => None end.
Proof. unfold gbind. destruct (snd g); reflexivity. Qed.

Section StreamShape.
Context {C : Type} `{Channel C}.
Variable decode : bytes -> str.
Variable chunk_size : N.

Lemma drain_stdout_no_exit (fuel : nat) :
  forall chan, existsb is_exit_code (fst (drain_stdout decode chunk_size fuel chan)) = false.
Proof.
  induction fuel as [|fuel IH]; intros chan; cbn [drain_stdout]; [reflexivity|].
  destruct (recv_ready chan) as [[|] c1]; [|reflexivity].
  destruct (recv chunk_size c1) as [data c2].
  rewrite gbind_fst, existsb_app.
  destruct (nonempty data); cbn [fst snd gyield gret existsb is_exit_code orb]; apply IH.
Qed.

Lemma drain_stderr_no_exit (fuel : nat) :
  forall chan, existsb is_exit_code (fst (drain_stderr decode chunk_size fuel chan)) = false.
Proof.
  induction fuel as [|fuel IH]; intros chan; cbn [drain_stderr]; [reflexivity|].
  destruct (recv_stderr_ready chan) as [[|] c1]; [|reflexivity].
  destruct (recv_stderr chunk_size c1) as [data c2].
  rewrite gbind_fst, existsb_app.
  destruct (nonempty data); cbn [fst snd gyield gret existsb is_exit_code orb]; apply IH.
Qed.

Lemma poll_loop_no_exit (fuel : nat) :
  forall chan, existsb is_exit_code (fst (poll_loop decode chunk_size fuel chan)) = false.
Proof.
  induction fuel as [|fuel IH]; intros chan; cbn [poll_loop]; [reflexivity|].
  rewrite gbind_fst, existsb_app, drain_stdout_no_exit. cbn [orb].
  destruct (snd (drain_stdout decode chunk_size fuel chan)) as [c1|]; [|reflexivity].
  rewrite gbind_fst, existsb_app, drain_stderr_no_exit. cbn [orb].
  destruct (snd (drain_stderr decode chunk_size fuel c1)) as [c2|]; [|reflexivity].
  destruct (exit_and_drained c2) as [[|] c3]; [reflexivity | apply IH].
Qed.

(** C6 (amended): whenever the polling loop of [ssh_stream] comes to its
    end, what the stream has yielded is a run of data elements followed by
    exactly one [exit_code] element, which is the last one. *)
Theorem ssh_stream_ends_with_one_exit_code (fuel : nat) (chan : C) :
  finished (ssh_stream decode chunk_size fuel chan) = true ->
  exists data code,
    fst (ssh_stream decode chunk_size fuel chan) = data ++ [Exit_code code]
    /\ existsb is_exit_code data = false
    /\ length (filter is_exit_code (fst (ssh_stream decode chunk_size fuel chan))) = 1
    /\ first_exit_code (fst (ssh_stream decode chunk_size fuel chan)) = Some code.
Proof.
  unfold ssh_stream, finished. rewrite gbind_snd, gbind_fst.
  pose proof (poll_loop_no_exit fuel chan) as NE.
  destruct (snd (poll_loop decode chunk_size fuel chan)) as [c1|]; [|discriminate].
  intros _. destruct (recv_exit_status c1) as [code c2].
  exists (fst (poll_loop decode chunk_size fuel chan)), code.
  cbn [gbind gyield gret fst snd app].
  split; [reflexivity|]. split; [exact NE|].
  revert NE. generalize (fst (poll_loop decode chunk_size fuel chan)).
  induction l as [|[t|t|c] l IH]; cbn [existsb is_exit_code orb app filter first_exit_code];
    intros NE; try discriminate; auto.
Qed.

(** More iterations change nothing once a loop has come to its end. *)
Lemma drain_stdout_mono (n : nat) :
  forall m chan,
    n <= m -> finished (drain_stdout decode chunk_size n chan) = true ->
    drain_stdout decode chunk_size m chan = drain_stdout decode chunk_size n chan.
Proof.
  induction n as [|n IH]; intros [|m] chan L F; try discriminate F; [lia|].
  cbn [drain_stdout] in *.
  destruct (recv_ready chan) as [[|] c1]; [|reflexivity].
  destruct (recv chunk_size c1) as [data c2].
  unfold finished in F. rewrite gbind_snd in F.
  unfold gbind.
  destruct (nonempty data); cbn [fst snd gyield gret] in *;
    rewrite (IH m c2) by (try lia; exact F); reflexivity.
Qed.

Lemma drain_stderr_mono (n : nat) :
  forall m chan,
    n <= m -> finished (drain_stderr decode chunk_size n chan) = true ->
    drain_stderr decode chunk_size m chan = drain_stderr decode chunk_size n chan.
Proof.
  induction n as [|n IH]; intros [|m] chan L F; try discriminate F; [lia|].
  cbn [drain_stderr] in *.
  destruct (recv_stderr_ready chan) as [[|] c1]; [|reflexivity].
  destruct (recv_stderr chunk_size c1) as [data c2].
  unfold finished in F. rewrite gbind_snd in F.
  unfold gbind.
  destruct (nonempty data); cbn [fst snd gyield gret] in *;
    rewrite (IH m c2) by (try lia; exact F); reflexivity.
Qed.

Lemma poll_loop_mono (n : nat) :
  forall m chan,
    n <= m -> finished (poll_loop decode chunk_size n chan) = true ->
    poll_loop decode chunk_size m chan = poll_loop decode chunk_size n chan.
Proof.
  induction n as [|n IH]; intros [|m] chan L F; try discriminate F; [lia|].
  cbn [poll_loop] in *. unfold finished in F. rewrite gbind_snd in F.
  destruct (snd (drain_stdout decode chunk_size n chan)) as [c1|] eqn:D1; [|discriminate].
  rewrite (@drain_stdout_mono n m chan) by (try lia; unfold finished; now rewrite D1).
  unfold gbind at 1 3. rewrite D1. f_equal.
  - f_equal. rewrite gbind_snd in F.
    destruct (snd (drain_stderr decode chunk_size n c1)) as [c2|] eqn:D2; [|discriminate].
    rewrite (@drain_stderr_mono n m c1) by (try lia; unfold finished; now rewrite D2).
    unfold gbind. rewrite D2. f_equal.
    destruct (exit_and_drained c2) as [[|] c3]; [reflexivity|].
    rewrite (IH m (sleep c3)) by (try lia; exact F). reflexivity.
  - rewrite gbind_snd in F.
    destruct (snd (drain_stderr decode chunk_size n c1)) as [c2|] eqn:D2; [|discriminate].
    rewrite (@drain_stderr_mono n m c1) by (try lia; unfold finished; now rewrite D2).
    unfold gbind. rewrite D2.
    destruct (exit_and_drained c2) as [[|] c3]; [reflexivity|].
    rewrite (IH m (sleep c3)) by (try lia; exact F). reflexivity.
Qed.

Lemma ssh_stream_mono (n m : nat) (chan : C) :
  n <= m -> finished (ssh_stream decode chunk_size n chan) = true ->
  ssh_stream decode chunk_size m chan = ssh_stream decode chunk_size n chan.
Proof.
  intros L F. unfold ssh_stream in *. unfold finished in F. rewrite gbind_snd in F.
  destruct (snd (poll_loop decode chunk_size n chan)) eqn:P; [|discriminate].
  rewrite (@poll_loop_mono n m chan) by (try lia; unfold finished; now rewrite P).
  reflexivity.
Qed.

Lemma ssh_stream_finished_has_exit_code (fuel : nat) (chan : C) :
  finished (ssh_stream decode chunk_size fuel chan) = true ->
  exists code, first_exit_code (fst (ssh_stream decode chunk_size fuel chan)) = Some code.
Proof.
  unfold ssh_stream, finished. rewrite gbind_snd, gbind_fst.
  pose proof (poll_loop_no_exit fuel chan) as NE.
  destruct (snd (poll_loop decode chunk_size fuel chan)) as [c1|]; [|discriminate].
  intros _. destruct (recv_exit_status c1) as [code c2]. exists code.
  cbn [gbind gyield gret fst snd app].
  revert NE. generalize (fst (poll_loop decode chunk_size fuel chan)).
  induction l as [|[t|t|c] l IH]; cbn [existsb is_exit_code orb app first_exit_code];
    intros NE; try discriminate; auto.
Qed.

End StreamShape.

(* ------------------------------------------------------------------ *)
(** ** Streams that end without an exit code *)

Section SessionFaults.
Context {C : Type} `{Channel C}.
Variable decode : bytes -> str.
Variable Transport : Type.
Variable ssh_transport : Instance -> Result (option Transport).
Variable open_session : Transport -> str -> Result C.

Lemma execute_of_opened (fuel : nat) (command : str) (instance : Instance)
    (transport : option Transport) (chan : C) :
  ssh_transport instance = Ok transport ->
  open_channel open_session transport command = Ok chan ->
  execute_of decode ssh_transport open_session fuel command instance
  = execute_result command
      (exec_stream _out _err (ssh_stream decode 4096 fuel chan) ([], empty_text)).
Proof.
  intros T O. unfold execute_of, instance_exec_of, ssh_stream_of. now rewrite T, O.
Qed.

Lemma execute_of_unopened (fuel : nat) (command : str) (instance : Instance)
    (transport : option Transport) (e : PyExc) :
  ssh_transport instance = Ok transport ->
  open_channel open_session transport command = Raise e ->
  execute_of decode ssh_transport open_session fuel command instance = Some (Raise e).
Proof.
  intros T O. unfold execute_of, instance_exec_of, ssh_stream_of. now rewrite T, O.
Qed.

(** Where connecting and opening the session succeed, the closure is the
    one [run] is stated with. *)
Lemma execute_of_connected (exec_command : Instance -> str -> C) (fuel : nat)
    (command : str) (instance : Instance) :
  execute_of decode (fun i => Ok (Some i)) (fun i c => Ok (exec_command i c))
    fuel command instance
  = execute decode exec_command fuel command instance.
Proof. reflexivity. Qed.


End SessionFaults.




(** *** Scripted channels *)

Lemma drain_stdout_never_exits (fuel : nat) :
  forall c c', never_exits c ->
    snd (drain_stdout decode_replace 4096 fuel c) = Some c' -> never_exits c'.
Proof.
  induction fuel as [|fuel IH]; intros c c' I E; cbn [drain_stdout] in E; [discriminate|].
  cbn [recv_ready sim_channel] in E.
  destruct (nonempty (out_buf c)).
  - cbn [recv sim_channel] in E. rewrite gbind_snd in E.
    destruct (nonempty (firstn (N.to_nat 4096) (out_buf c))); cbn [snd gyield gret] in E;
      (eapply IH; [|exact E]); exact I.
  - inversion E; subst c'. exact I.
Qed.

Lemma drain_stderr_never_exits (fuel : nat) :
  forall c c', never_exits c ->
    snd (drain_stderr decode_replace 4096 fuel c) = Some c' -> never_exits c'.
Proof.
  induction fuel as [|fuel IH]; intros c c' I E; cbn [drain_stderr] in E; [discriminate|].
  cbn [recv_stderr_ready sim_channel] in E.
  destruct (nonempty (err_buf c)).
  - cbn [recv_stderr sim_channel] in E. rewrite gbind_snd in E.
    destruct (nonempty (firstn (N.to_nat 4096) (err_buf c))); cbn [snd gyield gret] in E;
      (eapply IH; [|exact E]); exact I.
  - inversion E; subst c'. exact I.
Qed.

Lemma sim_sleep_never_exits (c : SimChan) : never_exits c -> never_exits (sim_sleep c).
Proof.
  intros [S A]. unfold sim_sleep. destruct (arrivals c) as [|a rest] eqn:R.
  - split; [exact S | now rewrite R].
  - cbn [forallb] in A. apply andb_true_iff in A as [Ha A].
    destruct a; try discriminate Ha; split; assumption.
Qed.

(** The polling loop on such a channel does not come to an end, however
    many iterations it is given. *)
Lemma poll_loop_never_exits (fuel : nat) :
  forall c, never_exits c -> snd (poll_loop decode_replace 4096 fuel c) = None.
Proof.
  induction fuel as [|fuel IH]; intros c I; cbn [poll_loop]; [reflexivity|].
  rewrite gbind_snd.
  destruct (snd (drain_stdout decode_replace 4096 fuel c)) as [c1|] eqn:D1; [|reflexivity].
  apply (drain_stdout_never_exits _ I) in D1.
  rewrite gbind_snd.
  destruct (snd (drain_stderr decode_replace 4096 fuel c1)) as [c2|] eqn:D2; [|reflexivity].
  apply (drain_stderr_never_exits _ D1) in D2.
  unfold exit_and_drained. cbn [exit_status_ready sim_channel].
  destruct D2 as [S2 A2]. rewrite S2.
  apply IH. apply sim_sleep_never_exits. now split.
Qed.

Lemma ssh_stream_never_exits (fuel : nat) (c : SimChan) :
  never_exits c ->
  finished (ssh_stream decode_replace 4096 fuel c) = false
  /\ existsb is_exit_code (fst (ssh_stream decode_replace 4096 fuel c)) = false.
Proof.
  intros I. unfold ssh_stream, finished.
  rewrite gbind_snd, gbind_fst, (poll_loop_never_exits fuel I), app_nil_r.
  split; [reflexivity | apply poll_loop_no_exit].
Qed.

Lemma ssh_stream_ends_with_one_exit_code_witness :
  exists data code,
    fst (ssh_stream decode_replace 4096 10
           (remote_17 {| instance_id := lit "morphvm_7"; snapshot_id := lit "snap0" |}
              (lit "make")))
    = data ++ [Exit_code code]
    /\ existsb is_exit_code data = false.
Proof.
  destruct (@ssh_stream_ends_with_one_exit_code SimChan sim_channel decode_replace 4096 10
              (remote_17 {| instance_id := lit "morphvm_7"; snapshot_id := lit "snap0" |}
                 (lit "make")))
    as (data & code & A & B & _).
  - vm_compute. reflexivity.
  - exists data, code. split; assumption.
Defined.

(** C6, as stated, fails twice.  A command that never exits yields a
    stream that has no [exit_code] element and no end, whatever the number
    of polls.  And what arrives on stderr is yielded under the channel
    [stdin], which is none of [stdout], [stderr], [exit_code]. *)
Lemma stream_without_end_and_stdin_channel :
  (~ exists fuel,
       finished (ssh_stream decode_replace 4096 fuel
                   (remote_hang {| instance_id := lit "morphvm_7"; snapshot_id := lit "snap0" |}
                      (lit "sleep infinity"))) = true
       \/ existsb is_exit_code
            (fst (ssh_stream decode_replace 4096 fuel
                    (remote_hang {| instance_id := lit "morphvm_7"; snapshot_id := lit "snap0" |}
                       (lit "sleep infinity")))) = true)
  /\ fst (ssh_stream decode_replace 4096 10
            (remote_17 {| instance_id := lit "morphvm_7"; snapshot_id := lit "snap0" |}
               (lit "make")))
     = [Stdout (lit "building
"); Stdin (lit "boom
"); Exit_code 17]
  /\ channel (Stdin (lit "boom
")) = lit "stdin"
  /\ ~ In (lit "stdin") [lit "stdout"; lit "stderr"; lit "exit_code"].
Proof.
  split; [|split; [|split]].
  - intros [fuel E].
    destruct (@ssh_stream_never_exits fuel
                (remote_hang {| instance_id := lit "morphvm_7"; snapshot_id := lit "snap0" |}
                   (lit "sleep infinity"))) as [A B].
    + split; reflexivity.
    + destruct E as [E|E]; congruence.
  - vm_compute. reflexivity.
  - reflexivity.
  - intros [E|[E|[E|[]]]]; discriminate E.
Qed.

(* ------------------------------------------------------------------ *)
(** ** Lines of the streaming buffer *)

Lemma is_linebreak_13 : is_linebreak 13 = true.
Proof. reflexivity. Qed.

(** A line that ends at a boundary other than a lone CR is split off as
    it stands. *)
Lemma splitlines_from_line (body : str) :
  forall cur t rest,
    no_break body = true -> is_linebreak t = true -> t <> 13%N ->
    splitlines_from cur (body ++ t :: rest)
    = (rev cur ++ body ++ [t]) :: splitlines_from [] rest.
Proof.
  induction body as [|x body IH]; intros cur t rest NB LB N13; cbn [app splitlines_from].
  - apply N.eqb_neq in N13. rewrite N13, LB. reflexivity.
  - cbn [no_break forallb] in NB. apply andb_true_iff in NB as [Hx NB].
    apply negb_true_iff in Hx.
    assert (X13 : N.eqb x 13 = false).
    { destruct (N.eqb x 13) eqn:E; [|reflexivity].
      apply N.eqb_eq in E. subst x. discriminate Hx. }
    rewrite X13, Hx, (IH (x :: cur) t rest NB LB N13).
    cbn [rev]. rewrite <- !app_assoc. reflexivity.
Qed.

Lemma splitlines_from_crlf (body : str) :
  forall cur rest,
    no_break body = true ->
    splitlines_from cur (body ++ 13%N :: 10%N :: rest)
    = (rev cur ++ body ++ [13%N; 10%N]) :: splitlines_from [] rest.
Proof.
  induction body as [|x body IH]; intros cur rest NB; cbn [app splitlines_from].
  - cbn [N.eqb Pos.eqb rev]. rewrite <- !app_assoc. reflexivity.
  - cbn [no_break forallb] in NB. apply andb_true_iff in NB as [Hx NB].
    apply negb_true_iff in Hx.
    assert (X13 : N.eqb x 13 = false).
    { destruct (N.eqb x 13) eqn:E; [|reflexivity].
      apply N.eqb_eq in E. subst x. discriminate Hx. }
    rewrite X13, Hx, (IH (x :: cur) rest NB).
    cbn [rev]. rewrite <- !app_assoc. reflexivity.
Qed.

Lemma splitlines_simple_lines (ls : list str) :
  Forall simple_line ls -> splitlines (concat ls) = ls.
Proof.
  unfold splitlines. induction 1 as [|l ls (body & t & -> & NB & LB & N13) _ IH]; [reflexivity|].
  cbn [concat]. rewrite <- app_assoc. cbn [app].
  rewrite splitlines_from_line by assumption. cbn [rev app]. now rewrite IH.
Qed.

Lemma no_break_rev (s : str) : no_break s = true -> no_break (rev s) = true.
Proof.
  unfold no_break. rewrite !forallb_forall. intros F x Hx. apply F. now apply in_rev.
Qed.

Lemma no_break_strip (s : str) :
  no_break s = true -> no_break (strip_control_codes s) = true.
Proof.
  unfold no_break, strip_control_codes. rewrite !forallb_forall.
  intros F x Hx. apply filter_In in Hx as [Hx _]. now apply F.
Qed.

Lemma kept_break_spec (t : N) :
  kept_break t = true -> is_linebreak t = true /\ is_control t = false /\ t <> 13%N.
Proof.
  unfold kept_break. intros E. apply andb_true_iff in E as [L K].
  apply negb_true_iff in K. repeat split; try assumption.
  intros ->. discriminate K.
Qed.

(** The shape of a chunk that is one terminated line. *)
Lemma terminated_line_shape (c : str) :
  terminated_line c = true ->
  exists body,
    no_break body = true
    /\ ((exists t, c = body ++ [t] /\ kept_break t = true)
        \/ c = body ++ [13%N; 10%N]).
Proof.
  unfold terminated_line. destruct (rev c) as [|t r] eqn:R; [discriminate|].
  assert (Ec : c = rev r ++ [t]).
  { rewrite <- (rev_involutive c), R. reflexivity. }
  intros E. apply andb_true_iff in E as [K NB].
  destruct r as [|p r'].
  - exists []. split; [reflexivity|]. left. exists t. now split.
  - destruct (N.eqb t 10 && N.eqb p 13) eqn:CRLF.
    + apply andb_true_iff in CRLF as [E10 E13].
      apply N.eqb_eq in E10, E13. subst t p.
      exists (rev r'). split; [now apply no_break_rev|]. right.
      rewrite Ec. cbn [rev]. rewrite <- app_assoc. reflexivity.
    + exists (rev (p :: r')). split; [now apply no_break_rev|].
      left. exists t. now split.
Qed.

Lemma splitlines_terminated_line (c : str) :
  terminated_line c = true -> splitlines c = [c].
Proof.
  intros T. destruct (terminated_line_shape c T) as (body & NB & [(t & -> & K)| ->]).
  - apply kept_break_spec in K as (LB & _ & N13).
    unfold splitlines. rewrite splitlines_from_line by assumption. reflexivity.
  - unfold splitlines. rewrite splitlines_from_crlf by assumption. reflexivity.
Qed.

Lemma strip_app (a b : str) :
  strip_control_codes (a ++ b) = strip_control_codes a ++ strip_control_codes b.
Proof. apply filter_app. Qed.

Lemma strip_terminated_line (c : str) :
  terminated_line c = true -> simple_line (strip_control_codes c).
Proof.
  intros T. destruct (terminated_line_shape c T) as (body & NB & [(t & -> & K)| ->]).
  - apply kept_break_spec in K as (LB & NC & N13).
    exists (strip_control_codes body), t. rewrite strip_app.
    unfold strip_control_codes at 2. cbn [filter]. rewrite NC. cbn [negb].
    repeat split; try assumption. now apply no_break_strip.
  - exists (strip_control_codes body), 10%N. rewrite strip_app.
    repeat split; try reflexivity; [now apply no_break_strip | discriminate].
Qed.

Lemma simple_line_ELLIPSIS : simple_line ELLIPSIS.
Proof.
  exists ([8943%N] ++ lit " [output truncated] " ++ [8943%N]), 10%N.
  repeat split; try reflexivity. discriminate.
Qed.

Lemma length_keep_last {A} (n : nat) (l : list A) :
  length (keep_last n l) = Nat.min n (length l).
Proof. unfold keep_last. rewrite length_skipn. lia. Qed.

Lemma keep_last_forallb {A} (f : A -> bool) (n : nat) (l : list A) :
  forallb f l = true -> forallb f (keep_last n l) = true.
Proof.
  rewrite !forallb_forall. intros F x Hx. apply F.
  unfold keep_last in Hx. rewrite <- (firstn_skipn (length l - n) l).
  apply in_or_app. now right.
Qed.

Lemma feed_rendered (style : option str) (chunks : list str) :
  forall lines s,
    rendered lines s ->
    exists s',
      feed STREAM_MAX_LINES style chunks s = Ok s'
      /\ rendered (lines ++ concat (map splitlines chunks)) s'.
Proof.
  induction chunks as [|c chunks IH]; intros lines s R; cbn [feed].
  - exists s. simpl. now rewrite app_nil_r.
  - destruct (callback_rendered c style R) as (s1 & E & R1).
    rewrite E. cbn [rbind].
    destruct (IH _ _ R1) as (s' & E' & R').
    exists s'. split; [exact E'|]. simpl. now rewrite app_assoc.
Qed.

Lemma concat_splitlines_terminated (chunks : list str) :
  forallb terminated_line chunks = true -> concat (map splitlines chunks) = chunks.
Proof.
  induction chunks as [|c chunks IH]; cbn [forallb map concat]; [reflexivity|].
  intros E. apply andb_true_iff in E as [T F].
  rewrite (splitlines_terminated_line c T), IH by assumption. reflexivity.
Qed.

(** What the buffer holds and shows after any chunks, each one line. *)
Lemma feed_terminated_lines (style : option str) (chunks : list str) :
  forallb terminated_line chunks = true ->
  exists buf text,
    feed STREAM_MAX_LINES style chunks ([], empty_text) = Ok (buf, text)
    /\ map fst buf = keep_last 24 chunks
    /\ visible_lines text
       = (if length chunks <? 24 then [] else [ELLIPSIS])
         ++ map strip_control_codes (keep_last 24 chunks).
Proof.
  intros T.
  destruct (feed_rendered style chunks rendered_initial) as ([buf text] & E & [Rb Rp]).
  cbn [app fst snd] in Rb, Rp. rewrite (concat_splitlines_terminated _ T) in Rb.
  change (Z.to_nat STREAM_MAX_LINES) with 24 in Rb.
  exists buf, text. split; [exact E|]. split; [exact Rb|].
  unfold visible_lines. rewrite Rp, Rb. unfold render_plain.
  rewrite length_keep_last.
  assert (SL : Forall simple_line (map strip_control_codes (keep_last 24 chunks))).
  { apply Forall_forall. intros l Hl. apply in_map_iff in Hl as (c & <- & Hc).
    apply strip_terminated_line.
    pose proof (keep_last_forallb terminated_line 24 chunks T) as K.
    rewrite forallb_forall in K. now apply K. }
  destruct (length chunks <? 24) eqn:L.
  - apply Nat.ltb_lt in L.
    replace (Z.of_nat (Nat.min 24 (length chunks)) =? STREAM_MAX_LINES)%Z with false
      by (symmetry; apply Z.eqb_neq; unfold STREAM_MAX_LINES; lia).
    cbn [app]. now apply splitlines_simple_lines.
  - apply Nat.ltb_ge in L.
    replace (Z.of_nat (Nat.min 24 (length chunks)) =? STREAM_MAX_LINES)%Z with true
      by (symmetry; apply Z.eqb_eq; unfold STREAM_MAX_LINES; lia).
    change (ELLIPSIS ++ concat (map strip_control_codes (keep_last 24 chunks)))
      with (concat (ELLIPSIS :: map strip_control_codes (keep_last 24 chunks))).
    apply splitlines_simple_lines. constructor; [apply simple_line_ELLIPSIS | exact SL].
Qed.

(** C5 (amended): after 1000 chunks, each one terminated line, have gone
    through the buffer with [max_lines=24], the text shows 25 lines: the
    truncation marker, once and first, and then the 24 most recent lines;
    the buffer holds 24 entries, and after every chunk on the way it held
    at most 24. *)
Theorem streaming_buffer_after_1000_chunks (style : option str) (chunks : list str) :
  length chunks = 1000 ->
  forallb terminated_line chunks = true ->
  exists buf text,
    feed 24 style chunks ([], empty_text) = Ok (buf, text)
    /\ length buf = 24
    /\ visible_lines text = ELLIPSIS :: map strip_control_codes (keep_last 24 chunks)
    /\ length (visible_lines text) = 25
    /\ hd [] (visible_lines text) = ELLIPSIS
    /\ forall k, exists bk tk,
         feed 24 style (firstn k chunks) ([], empty_text) = Ok (bk, tk)
         /\ length bk <= 24.
Proof.
  intros L T. change 24%Z with STREAM_MAX_LINES.
  destruct (feed_terminated_lines style chunks T) as (buf & text & E & B & V).
  rewrite L in V. cbn [Nat.ltb Nat.leb app] in V.
  exists buf, text. split; [exact E|].
  assert (LB : length buf = 24).
  { pose proof (f_equal (@length _) B) as Q.
    rewrite length_map, length_keep_last, L in Q. exact Q. }
  split; [exact LB|]. split; [exact V|]. split; [|split].
  - rewrite V. cbn [length]. rewrite length_map, length_keep_last, L. reflexivity.
  - rewrite V. reflexivity.
  - intros k.
    destruct (feed_rendered style (firstn k chunks) rendered_initial)
      as ([bk tk] & Ek & [Rb _]).
    exists bk, tk. split; [exact Ek|]. cbn [fst] in Rb.
    pose proof (f_equal (@length _) Rb) as Q.
    rewrite length_map, length_keep_last in Q.
    change (Z.to_nat STREAM_MAX_LINES) with 24 in Q.
    unfold Line in *. rewrite Q. apply Nat.le_min_l.
Qed.

Lemma streaming_buffer_after_1000_chunks_witness :
  exists buf text,
    feed 24 None (repeat (lit "compiling
") 1000) ([], empty_text) = Ok (buf, text)
    /\ length (visible_lines text) = 25
    /\ hd [] (visible_lines text) = ELLIPSIS.
Proof.
  destruct (@streaming_buffer_after_1000_chunks None (repeat (lit "compiling
") 1000))
    as (buf & text & A & _ & _ & B & D & _).
  - apply repeat_length.
  - vm_compute. reflexivity.
  - exists buf, text. repeat split; assumption.
Defined.

(** C5, as stated, fails: after 1000 one-line chunks the text shows 25
    lines, the marker and 24 lines of output, not 24. *)
Lemma streaming_buffer_shows_25_lines :
  exists buf text,
    feed 24 None (repeat (lit "compiling
") 1000) ([], empty_text) = Ok (buf, text)
    /\ length buf = 24
    /\ length (visible_lines text) = 25
    /\ 25 <> 24.
Proof.
  eexists. eexists. split; [vm_compute; reflexivity|].
  split; [reflexivity|]. split; [vm_compute; reflexivity | discriminate].
Qed.

(* ================================================================== *)
(** * Further properties *)

(** ** The streaming buffer, in general *)

Lemma trim_old_lines_negative (m : Z) (buf : list Line) :
  (m < 0)%Z ->
  trim_old_lines m buf
  = Raise {| exc_type := lit "IndexError"; exc_msg := lit "pop from an empty deque" |}.
Proof.
  intros Hm. induction buf as [|x buf IH]; cbn [trim_old_lines].
  - destruct (m <? Z.of_nat (length (@nil Line)))%Z eqn:E; [reflexivity|].
    apply Z.ltb_ge in E. simpl in E. lia.
  - destruct (m <? Z.of_nat (length (x :: buf)))%Z eqn:E; [exact IH|].
    apply Z.ltb_ge in E. lia.
Qed.

(** X1: with a negative [max_lines] the trimming loop pops the deque
    until it is empty and then once more: every call raises [IndexError],
    whatever the buffer and the chunk. *)
Theorem append_stream_chunk_negative_max_lines (buf : list Line) (chunk : str)
    (t : Text) (style : option str) (m : Z) :
  (m < 0)%Z ->
  _append_stream_chunk buf chunk t style m
  = Raise {| exc_type := lit "IndexError"; exc_msg := lit "pop from an empty deque" |}.
Proof.
  intros Hm. unfold _append_stream_chunk.
  now rewrite trim_old_lines_negative.
Qed.

Lemma append_stream_chunk_negative_max_lines_witness :
  _append_stream_chunk [] (lit "hello") empty_text None (-1)
  = Raise {| exc_type := lit "IndexError"; exc_msg := lit "pop from an empty deque" |}.
Proof. apply append_stream_chunk_negative_max_lines. reflexivity. Defined.

Lemma feed_from_empty (style : option str) (chunks : list str) :
  exists buf text,
    feed STREAM_MAX_LINES style chunks ([], empty_text) = Ok (buf, text)
    /\ map fst buf = keep_last 24 (pieces chunks)
    /\ length buf <= 24
    /\ plain text = render_plain 24 (keep_last 24 (pieces chunks)).
Proof.
  destruct (feed_rendered style chunks rendered_initial) as ([buf text] & E & [Rb Rp]).
  cbn [app fst snd] in Rb, Rp. change (Z.to_nat STREAM_MAX_LINES) with 24 in Rb.
  exists buf, text. split; [exact E|]. split; [exact Rb|]. split.
  - pose proof (f_equal (@length _) Rb) as Q.
    rewrite length_map, length_keep_last in Q. unfold Line in *. rewrite Q.
    apply Nat.le_min_l.
  - rewrite Rp, Rb. reflexivity.
Qed.

(** X2: whatever chunks go through a fresh buffer with the default bound
    (whole lines, partial lines, several lines at once, empty chunks), no
    call raises, the buffer ends up holding the last 24 of the pieces the
    chunks were split into, and the text shows the rendering of exactly
    those pieces: nothing of an earlier text survives a call. *)
Theorem feed_keeps_the_last_pieces (style : option str) (chunks : list str) :
  exists buf text,
    feed STREAM_MAX_LINES style chunks ([], empty_text) = Ok (buf, text)
    /\ map fst buf = keep_last 24 (pieces chunks)
    /\ length buf <= 24
    /\ plain text = render_plain 24 (keep_last 24 (pieces chunks)).
Proof. exact (feed_from_empty style chunks). Qed.

Lemma keep_last_all {A} (n : nat) (l : list A) : length l <= n -> keep_last n l = l.
Proof. intros L. unfold keep_last. replace (length l - n) with 0 by lia. reflexivity. Qed.

(** X3: the marker is tied to the buffer being exactly full, not to
    anything having been dropped: once exactly 24 pieces have arrived the
    buffer still holds every one of them, and yet the text opens with the
    truncation marker. *)
Theorem marker_shown_before_anything_is_dropped (style : option str) (chunks : list str) :
  length (pieces chunks) = 24 ->
  exists buf text,
    feed STREAM_MAX_LINES style chunks ([], empty_text) = Ok (buf, text)
    /\ map fst buf = pieces chunks
    /\ plain text = ELLIPSIS ++ concat (map strip_control_codes (pieces chunks)).
Proof.
  intros L.
  destruct (feed_from_empty style chunks) as (buf & text & E & B & _ & P).
  rewrite keep_last_all in B, P by lia.
  exists buf, text. split; [exact E|]. split; [exact B|].
  rewrite P. unfold render_plain. rewrite L. reflexivity.
Qed.

Lemma marker_shown_before_anything_is_dropped_witness :
  exists buf text,
    feed STREAM_MAX_LINES None (repeat (lit "ok
") 24) ([], empty_text) = Ok (buf, text)
    /\ map fst buf = repeat (lit "ok
") 24
    /\ is_prefix ELLIPSIS (plain text) = true.
Proof.
  destruct (@marker_shown_before_anything_is_dropped None (repeat (lit "ok
") 24))
    as (buf & text & A & B & D).
  - vm_compute. reflexivity.
  - exists buf, text. split; [exact A|]. split.
    + rewrite B. vm_compute. reflexivity.
    + rewrite D. vm_compute. reflexivity.
Defined.

(** Below the bound the text is the output itself, without marker. *)
Lemma no_marker_below_the_bound (style : option str) (chunks : list str) :
  length (pieces chunks) < 24 ->
  exists buf text,
    feed STREAM_MAX_LINES style chunks ([], empty_text) = Ok (buf, text)
    /\ plain text = concat (map strip_control_codes (pieces chunks)).
Proof.
  intros L.
  destruct (feed_from_empty style chunks) as (buf & text & E & _ & _ & P).
  rewrite keep_last_all in P by lia.
  exists buf, text. split; [exact E|].
  rewrite P. unfold render_plain.
  replace (Z.of_nat (length (pieces chunks)) =? 24)%Z with false
    by (symmetry; apply Z.eqb_neq; lia).
  reflexivity.
Qed.

(** *** Style spans *)

Lemma text_append_spans_within (t : Text) (x : str) (st : option str) :
  spans_within t -> spans_within (text_append t x st).
Proof.
  unfold spans_within, text_append. intros W.
  destruct x as [|c x]; [exact W|]. cbn [plain spans].
  assert (W' : Forall (fun sp => span_start sp <= span_end sp
                        /\ span_end sp <= length (plain t ++ strip_control_codes (c :: x)))
                 (spans t)).
  { eapply Forall_impl; [|exact W]. cbn beta. intros sp [A B].
    split; [exact A|]. rewrite length_app. lia. }
  destruct (style_truthy st); [|exact W'].
  apply Forall_app. split; [exact W'|]. constructor; [|constructor].
  cbn [span_start span_end]. rewrite length_app. lia.
Qed.

Lemma append_lines_spans_within (buf : list Line) :
  forall t, spans_within t -> spans_within (append_lines t buf).
Proof.
  unfold append_lines. induction buf as [|l buf IH]; intros t W; cbn [fold_left]; [exact W|].
  apply IH. now apply text_append_spans_within.
Qed.

(** X4: whenever a call returns, every style span of the rebuilt text
    lies inside the plain text, whatever text object went in. *)
Theorem append_stream_chunk_spans_within (buf : list Line) (chunk : str) (t : Text)
    (style : option str) (m : Z) (buf' : list Line) (t' : Text) :
  _append_stream_chunk buf chunk t style m = Ok (buf', t') ->
  spans_within t'.
Proof.
  unfold _append_stream_chunk. intros E.
  destruct (trim_old_lines m (buf ++ map (fun ln => (ln, style)) (splitlines chunk)))
    as [b|e]; cbn [rbind] in E; [|discriminate].
  injection E as <- <-. apply append_lines_spans_within.
  destruct (Z.of_nat (length b) =? m)%Z.
  - apply (@text_append_spans_within empty_text ELLIPSIS (Some (lit "dim"))). constructor.
  - constructor.
Qed.

Lemma append_stream_chunk_spans_within_witness :
  spans_within
    (append_lines empty_text [(lit "building
", None); (lit "boom
", Some (lit "#F23F42"))]).
Proof.
  apply (@append_stream_chunk_spans_within [(lit "building
", None)] (lit "boom
") empty_text (Some (lit "#F23F42")) 24
           [(lit "building
", None); (lit "boom
", Some (lit "#F23F42"))]).
  reflexivity.
Defined.

(* ------------------------------------------------------------------ *)
(** ** The stream and its consumer, in general *)

Section StreamContents.
Context {C : Type} `{Channel C}.
Variable decode : bytes -> str.
Variable chunk_size : N.

Lemma nonempty_spec (data : bytes) : nonempty data = true -> data <> [].
Proof. destruct data; [discriminate | discriminate]. Qed.

Lemma drain_stdout_nonempty_reads (fuel : nat) :
  forall chan,
    Forall (from_nonempty_read decode) (fst (drain_stdout decode chunk_size fuel chan)).
Proof.
  induction fuel as [|fuel IH]; intros chan; cbn [drain_stdout]; [constructor|].
  destruct (recv_ready chan) as [[|] c1]; [|constructor].
  destruct (recv chunk_size c1) as [data c2].
  rewrite gbind_fst. apply Forall_app. split.
  - destruct (nonempty data) eqn:E; cbn [fst gyield gret]; constructor; [|constructor].
    exists data. split; [now apply nonempty_spec | reflexivity].
  - destruct (nonempty data); cbn [snd gyield gret]; apply IH.
Qed.

Lemma drain_stderr_nonempty_reads (fuel : nat) :
  forall chan,
    Forall (from_nonempty_read decode) (fst (drain_stderr decode chunk_size fuel chan)).
Proof.
  induction fuel as [|fuel IH]; intros chan; cbn [drain_stderr]; [constructor|].
  destruct (recv_stderr_ready chan) as [[|] c1]; [|constructor].
  destruct (recv_stderr chunk_size c1) as [data c2].
  rewrite gbind_fst. apply Forall_app. split.
  - destruct (nonempty data) eqn:E; cbn [fst gyield gret]; constructor; [|constructor].
    exists data. split; [now apply nonempty_spec | reflexivity].
  - destruct (nonempty data); cbn [snd gyield gret]; apply IH.
Qed.

Lemma poll_loop_nonempty_reads (fuel : nat) :
  forall chan,
    Forall (from_nonempty_read decode) (fst (poll_loop decode chunk_size fuel chan)).
Proof.
  induction fuel as [|fuel IH]; intros chan; cbn [poll_loop]; [constructor|].
  rewrite gbind_fst. apply Forall_app. split; [apply drain_stdout_nonempty_reads|].
  destruct (snd (drain_stdout decode chunk_size fuel chan)) as [c1|]; [|constructor].
  rewrite gbind_fst. apply Forall_app. split; [apply drain_stderr_nonempty_reads|].
  destruct (snd (drain_stderr decode chunk_size fuel c1)) as [c2|]; [|constructor].
  destruct (exit_and_drained c2) as [[|] c3]; [constructor | apply IH].
Qed.

(** X5: the stream never yields an empty chunk: every data element is the
    decoding of a read that returned at least one byte, on any channel
    and after any number of polls. *)
Theorem ssh_stream_yields_no_empty_read (fuel : nat) (chan : C) :
  Forall (from_nonempty_read decode) (fst (ssh_stream decode chunk_size fuel chan)).
Proof.
  unfold ssh_stream. rewrite gbind_fst. apply Forall_app.
  split; [apply poll_loop_nonempty_reads|].
  destruct (snd (poll_loop decode chunk_size fuel chan)) as [c1|]; [|constructor].
  destruct (recv_exit_status c1) as [code c2].
  cbn [gbind gyield gret fst snd app]. constructor; [exact I | constructor].
Qed.

End StreamContents.

Section ExecuteOutcomes.
Context {C : Type} `{Channel C}.
Variable decode : bytes -> str.
Variable Transport : Type.
Variable ssh_transport : Instance -> Result (option Transport).
Variable open_session : Transport -> str -> Result C.

(** X6: what comes out of the closure [execute] of [run].  If connecting
    or opening the session raises, that exception; on a client without
    transport, the [AssertionError] of [ssh_stream].  Once the command is
    started: nothing while the loop is polling, a plain return after exit
    code 0, the command failure for any other exit code; the
    [RuntimeError] of [instance_exec] for a stream without exit code is
    not among them, since [ssh_stream] never ends without one. *)
Theorem execute_outcomes (fuel : nat) (command : str) (instance : Instance) :
  match ssh_transport instance with
  | Raise e =>
      execute_of decode ssh_transport open_session fuel command instance = Some (Raise e)
  | Ok None =>
      execute_of decode ssh_transport open_session fuel command instance
      = Some (Raise transport_not_connected)
  | Ok (Some t) =>
      match open_session t command with
      | Raise e =>
          execute_of decode ssh_transport open_session fuel command instance
          = Some (Raise e)
      | Ok chan =>
          match first_exit_code (fst (ssh_stream decode 4096 fuel chan)) with
          | None =>
              finished (ssh_stream decode 4096 fuel chan) = false
              /\ execute_of decode ssh_transport open_session fuel command instance = None
          | Some code =>
              if (code =? 0)%Z then
                execute_of decode ssh_transport open_session fuel command instance
                = Some (Ok None)
              else
                exists text,
                  execute_of decode ssh_transport open_session fuel command instance
                  = Some (Raise {| exc_type := lit "Exception";
                                   exc_msg := failure_message command code text |})
          end
      end
  end.
Proof.
  destruct (ssh_transport instance) as [[t|]|e] eqn:T.
  - destruct (open_session t command) as [chan|e] eqn:O.
    + rewrite (@execute_of_opened _ _ decode _ ssh_transport open_session fuel command
                 instance (Some t) chan T O).
      rewrite execute_result_run_callbacks.
      destruct (first_exit_code (fst (ssh_stream decode 4096 fuel chan))) as [code|] eqn:E.
      * destruct (code =? 0)%Z; [reflexivity|].
        exists {| plain := shown (fst (ssh_stream decode 4096 fuel chan)); spans := [] |}.
        reflexivity.
      * destruct (finished (ssh_stream decode 4096 fuel chan)) eqn:F.
        -- destruct (ssh_stream_finished_has_exit_code decode 4096 fuel _ F) as [code E'].
           congruence.
        -- now split.
    + now apply (@execute_of_unopened _ _ decode _ ssh_transport open_session fuel command
                   instance (Some t)).
  - now apply (@execute_of_unopened _ _ decode _ ssh_transport open_session fuel command
                 instance None).
  - unfold execute_of, instance_exec_of. now rewrite T.
Qed.

End ExecuteOutcomes.




(** *** What follows the exit code *)

Section AfterExit.
Variable St : Type.
Variables on_stdout on_stderr : str -> St -> Result St.

Lemma dispatch_stops_at_exit_code (pre : list StreamTuple) :
  forall code rest s,
    dispatch on_stdout on_stderr (pre ++ Exit_code code :: rest) s
    = dispatch on_stdout on_stderr (pre ++ [Exit_code code]) s
    /\ fst (dispatch on_stdout on_stderr (pre ++ [Exit_code code]) s) <> Ok None.
Proof.
  induction pre as [|[t|t|c] pre IH]; intros code rest s; cbn [app dispatch].
  - split; [reflexivity | discriminate].
  - destruct (on_stdout t s); [apply IH | split; [reflexivity | discriminate]].
  - destruct (on_stderr t s); [apply IH | split; [reflexivity | discriminate]].
  - split; [reflexivity | discriminate].
Qed.

(** X7: [instance_exec] returns at the first exit code: whatever the
    callbacks are, its result and the state they leave depend neither on
    what the stream would have yielded afterwards nor on whether the
    stream had come to its end. *)
Theorem exec_stream_ignores_what_follows_the_exit_code {A B}
    (pre rest : list StreamTuple) (code : Z) (fin : option A) (fin' : option B) (s : St) :
  exec_stream on_stdout on_stderr (pre ++ Exit_code code :: rest, fin) s
  = exec_stream on_stdout on_stderr (pre ++ [Exit_code code], fin') s.
Proof.
  unfold exec_stream. cbn [fst].
  destruct (dispatch_stops_at_exit_code pre code rest s) as [E NN]. rewrite E.
  destruct (dispatch on_stdout on_stderr (pre ++ [Exit_code code]) s) as [[[z|]|e] s'];
    try reflexivity.
  now contradiction NN.
Qed.

End AfterExit.

(* ------------------------------------------------------------------ *)
(** ** The cache, in general *)

(** What a purge leaves in the store: the records whose id is not the id
    of a record the predicate condemned. *)
Lemma purge_spec (f : Snapshot -> bool) (snaps : list ApiSnapshot) :
  forall w,
    purge f snaps w
    = (filter (fun s => negb (f {| snapshot := s |})) snaps,
       {| store := filter (fun s' => negb (existsb (fun s => PyStr.eqb (id s') (id s))
                                             (filter (fun s => f {| snapshot := s |}) snaps)))
                     (store w);
          started := started w; next_id := next_id w; op_calls := op_calls w |}).
Proof.
  induction snaps as [|s snaps IH]; intros w; cbn [purge filter].
  - f_equal. destruct w; simpl. f_equal.
    induction store0 as [|x l IHl]; simpl; congruence.
  - destruct (f {| snapshot := s |}) eqn:F; cbn [negb].
    + rewrite IH. f_equal. simpl. f_equal.
      induction (store w) as [|x l IHl]; simpl; [reflexivity|].
      destruct (PyStr.eqb (id x) (id s)); simpl; [exact IHl|].
      destruct (existsb _ _); simpl; congruence.
    + rewrite IH. reflexivity.
Qed.

Lemma filter_filter_comm {A} (f g : A -> bool) (l : list A) :
  filter f (filter g l) = filter g (filter f l).
Proof.
  induction l as [|x l IH]; simpl; [reflexivity|].
  destruct (f x) eqn:F, (g x) eqn:G; simpl; rewrite ?F, ?G, IH; reflexivity.
Qed.

(** A lookup that found nothing before a purge finds nothing after it. *)
Lemma purge_keeps_lookup_empty (f : Snapshot -> bool) (snaps : list ApiSnapshot)
    (d : str) (w : World) :
  snapshots_list d w = [] -> snapshots_list d (snd (purge f snaps w)) = [].
Proof.
  intros E. rewrite purge_spec. unfold snapshots_list in *. cbn [snd store].
  rewrite filter_filter_comm, E. reflexivity.
Qed.

Lemma cache_check_world (self : Snapshot) (key : option str) (inv : Invalidate) (w : World) :
  started (snd (cache_check self key inv w)) = started w
  /\ next_id (snd (cache_check self key inv w)) = next_id w
  /\ op_calls (snd (cache_check self key inv w)) = op_calls w.
Proof.
  unfold cache_check. destruct (key_truthy key); [|auto].
  destruct (inv_truthy inv); [|auto].
  destruct (purge_next_id (invalidate_fn inv)
              (snapshots_list (key_to_digest self s) w) w) as (A & B & D). auto.
Qed.

(** A hit, stated for the helper lemmas below. *)
Lemma apply_hit (self : Snapshot) (func : Func) (k : str) (start_fn : StartFn)
    (w : World) (s : ApiSnapshot) (rest : list ApiSnapshot) :
  k <> [] ->
  snapshots_list (key_to_digest self k) w = s :: rest ->
  apply self func (Some k) start_fn (InvBool false) w = Some (Ok {| snapshot := s |}, w).
Proof.
  intros Hk Hit. apply truthy_nonempty in Hk.
  unfold apply, cache_check. cbn [key_truthy]. rewrite Hk. cbn [inv_truthy].
  now rewrite Hit.
Qed.

(** After [apply] has returned a snapshot for a key, with or without
    unconditional invalidation, that snapshot is what a lookup of the key
    finds first. *)
Lemma apply_result_is_first (self : Snapshot) (func : Func) (k : str) (b : bool)
    (w w' : World) (snap : Snapshot) :
  k <> [] -> keeps_store func ->
  apply self func (Some k) StartNone (InvBool b) w = Some (Ok snap, w') ->
  exists rest, snapshots_list (key_to_digest self k) w' = snapshot snap :: rest.
Proof.
  intros Hk KS A. assert (T : truthy k = true) by now apply truthy_nonempty.
  unfold apply in A.
  destruct (cache_check self (Some k) (InvBool b) w) as [[|s rest] w1] eqn:CC.
  - assert (L1 : snapshots_list (key_to_digest self k) w1 = []).
    { unfold cache_check in CC. cbn [key_truthy] in CC. rewrite T in CC.
      destruct b; cbn [inv_truthy invalidate_fn] in CC.
      - pose proof (purge_all_clears (key_to_digest self k) w) as P.
        rewrite purge_all in P. rewrite purge_all in CC.
        inversion CC; subst w1. exact P.
      - injection CC as E1 E2. subst w1. exact E1. }
    unfold execute_layer, enter, start, instances_start in A.
    destruct (func _ _) as [[[res|e] w2]|] eqn:F; try discriminate.
    apply KS in F. cbn [key_truthy] in A. rewrite T in A.
    unfold instance_snapshot in A. inversion A; subst snap w'. clear A.
    exists []. unfold snapshots_list in *. cbn [store snapshot].
    rewrite F. cbn [count_call store]. rewrite filter_app, L1.
    cbn [filter app]. now rewrite digest_is_refl.
  - inversion A; subst snap w'. clear A.
    unfold cache_check in CC. cbn [key_truthy] in CC. rewrite T in CC.
    destruct b; cbn [inv_truthy invalidate_fn] in CC.
    + rewrite purge_all in CC. discriminate.
    + injection CC as E1 E2. subst w1. exists rest. exact E1.
Qed.

Section RunCache.
Context {C : Type} `{Channel C}.
Variable decode : bytes -> str.
Variable exec_command : Instance -> str -> C.

Lemma run_func_keeps_store (fuel : nat) (command : str) :
  keeps_store (fun inst w => match execute decode exec_command fuel command inst with
                             | Some r => Some (r, w)
                             | None => None
                             end).
Proof.
  intros inst w r w' E. destruct (execute decode exec_command fuel command inst);
    [|discriminate]. now inversion E.
Qed.

(** X8: once [run] has returned a snapshot for a non-empty command, any
    later [run] of that command on the same base returns the very same
    snapshot and leaves the world untouched, whatever the remote side
    would do this time: no instance is started and nothing is executed. *)
Theorem run_again_is_a_cache_hit (fuel fuel' : nat) (decode' : bytes -> str)
    (exec_command' : Instance -> str -> C) (self : Snapshot) (command : str)
    (b : bool) (w w' : World) (snap : Snapshot) :
  command <> [] ->
  run decode exec_command fuel self command (InvBool b) w = Some (Ok snap, w') ->
  run decode' exec_command' fuel' self command (InvBool false) w' = Some (Ok snap, w').
Proof.
  intros Hk R. unfold run in R.
  destruct (@apply_result_is_first self _ command b w w' snap Hk
              (run_func_keeps_store fuel command) R) as [rest L].
  unfold run. erewrite apply_hit; [|exact Hk|exact L]. now destruct snap.
Qed.

(** X9: a re-run with [invalidate=True] whose command fails leaves the
    cache without any entry for the command: the old snapshots are
    deleted before the command runs, and the failure stores nothing. *)
Theorem failed_rerun_empties_the_cache_entry (fuel : nat) (self : Snapshot)
    (command : str) (w : World) (code : Z) :
  command <> [] ->
  first_exit_code
    (fst (ssh_stream decode 4096 fuel
            (exec_command
               (fst (start self (snd (cache_check self (Some command) (InvBool true) w))))
               command)))
  = Some code ->
  code <> 0%Z ->
  exists e w',
    run decode exec_command fuel self command (InvBool true) w = Some (Raise e, w')
    /\ snapshots_list (key_to_digest self command) w' = [].
Proof.
  intros Hk E NZ. assert (T : truthy command = true) by now apply truthy_nonempty.
  assert (CC : cache_check self (Some command) (InvBool true) w
               = ([], snd (purge (fun _ => true)
                            (snapshots_list (key_to_digest self command) w) w))).
  { unfold cache_check. cbn [key_truthy]. rewrite T. cbn [inv_truthy invalidate_fn].
    rewrite purge_all. reflexivity. }
  rewrite CC in E. cbn [snd] in E.
  pose proof (purge_all_clears (key_to_digest self command) w) as Clear.
  set (w1 := snd (purge (fun _ => true)
                    (snapshots_list (key_to_digest self command) w) w)) in *.
  pose proof (execute_nonzero_exit decode exec_command fuel command
                (fst (start self w1)) E NZ) as X.
  unfold run, apply. rewrite CC. unfold execute_layer, enter.
  destruct (start self w1) as [inst w2] eqn:S1. cbn [fst] in X. rewrite X.
  eexists; eexists; split; [reflexivity|].
  unfold start, instances_start in S1. inversion S1; subst.
  exact Clear.
Qed.

End RunCache.

Lemma run_again_is_a_cache_hit_witness :
  exists snap w',
    run decode_replace remote_ok 10 base0 (lit "make") (InvBool false) (world_with [])
    = Some (Ok snap, w')
    /\ run decode_replace remote_17 0 base0 (lit "make") (InvBool false) w'
       = Some (Ok snap, w').
Proof.
  eexists. eexists. split; [vm_compute; reflexivity|].
  apply (@run_again_is_a_cache_hit SimChan sim_channel decode_replace remote_ok 10 0
           decode_replace remote_17 base0 (lit "make") false (world_with [])).
  - discriminate.
  - vm_compute. reflexivity.
Defined.

Lemma failed_rerun_empties_the_cache_entry_witness :
  exists e w',
    run decode_replace remote_17 10 base0 (lit "make") (InvBool true)
      (world_with [cached_make]) = Some (Raise e, w')
    /\ snapshots_list (key_to_digest base0 (lit "make")) w' = [].
Proof.
  apply (@failed_rerun_empties_the_cache_entry SimChan sim_channel decode_replace
           remote_17 10 base0 (lit "make") (world_with [cached_make]) 17%Z).
  - discriminate.
  - vm_compute. reflexivity.
  - discriminate.
Defined.

(** X10: with a predicate for [invalidate], [apply] deletes the cached
    snapshots the predicate condemns and answers with the first one it
    spares: no instance is started and the operation is not invoked. *)
Theorem selective_invalidation_returns_first_spared (self : Snapshot) (func : Func)
    (k : str) (start_fn : StartFn) (p : Snapshot -> bool) (w : World)
    (s : ApiSnapshot) (rest : list ApiSnapshot) :
  k <> [] ->
  filter (fun x => negb (p {| snapshot := x |})) (snapshots_list (key_to_digest self k) w)
  = s :: rest ->
  exists w1,
    apply self func (Some k) start_fn (InvFn p) w = Some (Ok {| snapshot := s |}, w1)
    /\ started w1 = started w
    /\ op_calls w1 = op_calls w
    /\ incl (store w1) (store w)
    /\ forall x, In x (snapshots_list (key_to_digest self k) w) ->
                 p {| snapshot := x |} = true -> ~ In x (store w1).
Proof.
  intros Hk F. apply truthy_nonempty in Hk.
  unfold apply, cache_check. cbn [key_truthy]. rewrite Hk. cbn [inv_truthy invalidate_fn].
  rewrite purge_spec, F. eexists. split; [reflexivity|]. cbn [started op_calls store].
  split; [reflexivity|]. split; [reflexivity|]. split.
  - intros x Hx. now apply filter_In in Hx.
  - intros x Hx Px Hin. apply filter_In in Hin as [_ N].
    apply negb_true_iff in N.
    assert (E : existsb (fun y => PyStr.eqb (id x) (id y))
                  (filter (fun y => p {| snapshot := y |})
                     (snapshots_list (key_to_digest self k) w)) = true).
    { apply existsb_exists. exists x. split; [|apply eqb_refl].
      apply filter_In. now split. }
    congruence.
Qed.

Lemma selective_invalidation_returns_first_spared_witness :
  exists w1,
    apply base0 (fun _ _ => None) (Some (lit "make")) StartNone
      (InvFn (fun s => PyStr.eqb (id (snapshot s)) (lit "snap1")))
      (world_with [cached_make;
                   {| id := lit "snap2"; digest := Some (lit "basesnap0make") |}])
    = Some (Ok {| snapshot := {| id := lit "snap2";
                                 digest := Some (lit "basesnap0make") |} |}, w1)
    /\ store w1 = [{| id := lit "snap2"; digest := Some (lit "basesnap0make") |}].
Proof.
  destruct (@selective_invalidation_returns_first_spared base0 (fun _ _ => None)
              (lit "make") StartNone
              (fun s => PyStr.eqb (id (snapshot s)) (lit "snap1"))
              (world_with [cached_make;
                           {| id := lit "snap2"; digest := Some (lit "basesnap0make") |}])
              {| id := lit "snap2"; digest := Some (lit "basesnap0make") |} [])
    as (w1 & A & _).
  - discriminate.
  - reflexivity.
  - exists w1. split; [exact A|].
    vm_compute in A. injection A as <-. reflexivity.
Defined.

Section RunEmpty.
Context {C : Type} `{Channel C}.
Variable decode : bytes -> str.
Variable exec_command : Instance -> str -> C.

(** X11: the empty command is never cached.  Every [run] of it that
    exits with 0 starts an instance, executes, and adds one more snapshot
    that carries no digest; nothing is looked up and nothing is deleted,
    with any [invalidate]. *)
Theorem run_of_empty_command_is_never_cached (fuel : nat) (self : Snapshot)
    (invalidate : Invalidate) (w : World) :
  first_exit_code
    (fst (ssh_stream decode 4096 fuel (exec_command (fst (start self w)) (lit ""))))
  = Some 0%Z ->
  exists snap w',
    run decode exec_command fuel self (lit "") invalidate w = Some (Ok snap, w')
    /\ digest (snapshot snap) = None
    /\ store w' = store w ++ [snapshot snap]
    /\ started w' = started w ++ [fst (start self w)]
    /\ op_calls w' = S (op_calls w).
Proof.
  intros E. change (lit "") with (@nil N) in *.
  assert (X : execute decode exec_command fuel [] (fst (start self w))
              = Some (Ok None)).
  { unfold execute, instance_exec. rewrite execute_result_run_callbacks, E. reflexivity. }
  unfold run, apply, cache_check. cbn [key_truthy truthy].
  unfold execute_layer, enter.
  destruct (start self w) as [inst w2] eqn:S1. cbn [fst] in X. rewrite X.
  cbn [key_truthy truthy]. unfold instance_snapshot.
  eexists. eexists. split; [reflexivity|]. cbn [snapshot digest store started op_calls].
  unfold start, instances_start in S1. inversion S1; subst. cbn [count_call fst
    store started op_calls]. repeat split.
Qed.

End RunEmpty.

Lemma run_of_empty_command_is_never_cached_witness :
  exists snap w',
    run decode_replace remote_ok 10 base0 (lit "") (InvBool true)
      (world_with [cached_make]) = Some (Ok snap, w')
    /\ digest (snapshot snap) = None
    /\ store w' = [cached_make; snapshot snap].
Proof.
  destruct (@run_of_empty_command_is_never_cached SimChan sim_channel decode_replace
              remote_ok 10 base0 (InvBool true) (world_with [cached_make]))
    as (snap & w' & A & B & D & _).
  - vm_compute. reflexivity.
  - exists snap, w'. repeat split; assumption.
Defined.

(* ------------------------------------------------------------------ *)
(** ** [Snapshot.create] *)

Lemma delete_matching_purge (f : Snapshot -> bool) (snaps : list ApiSnapshot) :
  forall w, delete_matching f snaps w = snd (purge f snaps w).
Proof.
  induction snaps as [|s snaps IH]; intros w; cbn [delete_matching purge]; [reflexivity|].
  destruct (f {| snapshot := s |}); [apply IH|].
  rewrite IH. destruct (purge f snaps w); reflexivity.
Qed.

(** X12: [create] never answers from the store.  Without invalidation it
    adds a record under the name and keeps those already there, so a name
    can have any number of snapshots; with [invalidate=True] the new
    record is the only one left under the name. *)
Theorem create_always_adds_a_record (name : str) (w : World) :
  (digest (snapshot (fst (create name (InvBool false) w))) = Some name
   /\ store (snd (create name (InvBool false) w))
      = store w ++ [snapshot (fst (create name (InvBool false) w))]
   /\ snapshots_list name (snd (create name (InvBool false) w))
      = snapshots_list name w ++ [snapshot (fst (create name (InvBool false) w))])
  /\ (digest (snapshot (fst (create name (InvBool true) w))) = Some name
      /\ incl (store (snd (create name (InvBool true) w)))
           (store w ++ [snapshot (fst (create name (InvBool true) w))])
      /\ snapshots_list name (snd (create name (InvBool true) w))
         = [snapshot (fst (create name (InvBool true) w))]).
Proof.
  split.
  - unfold create, snapshots_create. cbn [inv_truthy fst snd snapshot digest store].
    split; [reflexivity|]. split; [reflexivity|].
    unfold snapshots_list. cbn [store]. rewrite filter_app. cbn [filter].
    now rewrite digest_is_refl.
  - unfold create, snapshots_create. cbn [inv_truthy invalidate_fn].
    rewrite delete_matching_purge. cbn [fst snd snapshot digest store].
    split; [reflexivity|]. split.
    + apply incl_app; [|apply incl_appr, incl_refl].
      apply incl_appl, purge_incl.
    + unfold snapshots_list at 1. cbn [store]. rewrite filter_app.
      fold (snapshots_list name
              (snd (purge (fun _ => true) (snapshots_list name w) w))).
      rewrite purge_all_clears. cbn [filter app]. now rewrite digest_is_refl.
Qed.

(* ------------------------------------------------------------------ *)
(** ** [copy_]: the cache key and the transfers *)

Lemma copy_key_nonempty (src dest : str) : copy_key src dest <> [].
Proof. discriminate. Qed.

Lemma copy_key_shift (a b c : str) :
  copy_key (a ++ lit "-" ++ b) c = copy_key a (b ++ lit "-" ++ c).
Proof. unfold copy_key. now rewrite <- !app_assoc. Qed.

Section CopyProperties.
Variable parent_of : str -> str.
Variable sftp_stat : str -> StatOutcome.

Lemma execute_copy_keeps_store (src_node : option Node) (src dest : str) :
  keeps_store (execute_copy parent_of sftp_stat src_node src dest).
Proof.
  intros inst w r w' E. unfold execute_copy in E.
  destruct (copy_calls parent_of sftp_stat src_node src dest); now injection E as _ <-.
Qed.

(** X14: the key of [copy_] joins source and destination with a hyphen,
    so it cannot tell [a-b] copied to [c] from [a] copied to [b-c]: after
    the first has been done, the second is answered with the snapshot of
    the first and nothing is copied, whatever the local files are. *)
Theorem copy_of_other_paths_is_answered_from_the_cache
    (sftp_stat' : str -> StatOutcome) (self : Snapshot) (node node' : option Node)
    (a b c : str) (inv : bool) (w w' : World) (snap : Snapshot) :
  copy_ parent_of sftp_stat self node (a ++ lit "-" ++ b) c (InvBool inv) w
  = Some (Ok snap, w') ->
  copy_ parent_of sftp_stat' self node' a (b ++ lit "-" ++ c) (InvBool false) w'
  = Some (Ok snap, w').
Proof.
  intros E. unfold copy_ in *.
  destruct (@apply_result_is_first self _ (copy_key (a ++ lit "-" ++ b) c) inv w w' snap
              (@copy_key_nonempty _ _) (@execute_copy_keeps_store _ _ _) E) as [rest L].
  rewrite <- copy_key_shift.
  erewrite apply_hit; [|apply copy_key_nonempty|exact L]. now destruct snap.
Qed.

(** X15: a missing local source is noticed only on a cache miss, and then
    late: an instance has been started before [FileNotFoundError] is
    raised, and no snapshot is stored.  On a hit the cached snapshot is
    returned as if the source were there. *)
Theorem copy_of_missing_source (self : Snapshot) (src dest : str) (w : World) :
  (snapshots_list (key_to_digest self (copy_key src dest)) w = [] ->
   copy_ parent_of sftp_stat self None src dest (InvBool false) w
   = Some (Raise {| exc_type := lit "FileNotFoundError";
                    exc_msg := lit "Source path does not exist: " ++ src |},
           count_call (snd (start self w)))
   /\ store (count_call (snd (start self w))) = store w
   /\ started (count_call (snd (start self w))) = started w ++ [fst (start self w)])
  /\ (forall s rest,
        snapshots_list (key_to_digest self (copy_key src dest)) w = s :: rest ->
        copy_ parent_of sftp_stat self None src dest (InvBool false) w
        = Some (Ok {| snapshot := s |}, w)).
Proof.
  split.
  - intros Miss. unfold copy_, apply, cache_check. cbn [key_truthy].
    replace (truthy (copy_key src dest)) with true by reflexivity.
    cbn [inv_truthy]. rewrite Miss. unfold execute_layer, enter.
    destruct (start self w) as [inst w2] eqn:S1.
    cbn [execute_copy copy_calls fst snd]. split; [reflexivity|].
    unfold start, instances_start in S1. injection S1 as <- <-.
    split; reflexivity.
  - intros s rest Hit. unfold copy_.
    apply (@apply_hit self _ (copy_key src dest) StartNone w s rest);
      [apply copy_key_nonempty | exact Hit].
Qed.



(** A directory is not copied onto an existing non-directory, but
    only if the destination is written without a separator at its end:
    then [ValueError] is raised before any call is made.  Written with
    a separator at its end, the same destination is not examined at all. *)
Lemma copy_directory_onto_a_file (items : list (str * Node)) (src dest : str) :
  (endswith_slash dest = false -> sftp_stat dest = StatMode false ->
   copy_calls parent_of sftp_stat (Some (NDir items)) src dest
   = Raise {| exc_type := lit "ValueError";
              exc_msg := lit "Cannot copy directory to non-directory: " ++ dest |})
  /\ (endswith_slash dest = true ->
      copy_calls parent_of sftp_stat (Some (NDir items)) src dest
      = Ok (copy_node parent_of (NDir items)
              (rstrip_slash dest ++ lit "/" ++ path_name src)))
  /\ (forall e,
        copy_calls parent_of sftp_stat (Some (NDir items)) src dest = Raise e ->
        endswith_slash dest = false /\ sftp_stat dest = StatMode false).
Proof.
  cbn [copy_calls]. split; [|split].
  - intros -> ->. reflexivity.
  - intros ->. reflexivity.
  - intros e. destruct (endswith_slash dest); [discriminate|].
    destruct (sftp_stat dest) as [[|]|]; try discriminate. now split.
Qed.

(** X17: a source that exists but is neither a regular file nor a
    directory makes [copy_] do nothing and succeed: on a miss the started
    instance is snapshotted as it is and stored under the key, so that
    later copies of the same paths are answered with it. *)
Theorem copy_of_special_source_caches_an_empty_copy (self : Snapshot) (src dest : str)
    (w : World) :
  snapshots_list (key_to_digest self (copy_key src dest)) w = [] ->
  copy_calls parent_of sftp_stat (Some NOther) src dest = Ok []
  /\ exists snap w',
       copy_ parent_of sftp_stat self (Some NOther) src dest (InvBool false) w
       = Some (Ok snap, w')
       /\ digest (snapshot snap) = Some (key_to_digest self (copy_key src dest))
       /\ snapshots_list (key_to_digest self (copy_key src dest)) w' = [snapshot snap].
Proof.
  intros Miss. split; [reflexivity|].
  unfold copy_, apply, cache_check. cbn [key_truthy].
  replace (truthy (copy_key src dest)) with true by reflexivity.
  cbn [inv_truthy]. rewrite Miss. unfold execute_layer, enter.
  destruct (start self w) as [inst w2] eqn:S1.
  cbn [execute_copy copy_calls key_truthy].
  replace (truthy (copy_key src dest)) with true by reflexivity.
  unfold instance_snapshot. eexists. eexists. split; [reflexivity|].
  cbn [snapshot digest]. split; [reflexivity|].
  unfold snapshots_list in *. cbn [store count_call].
  unfold start, instances_start in S1. injection S1 as <- <-. cbn [store].
  rewrite filter_app, Miss. cbn [filter app]. now rewrite digest_is_refl.
Qed.

End CopyProperties.

Lemma copy_of_other_paths_is_answered_from_the_cache_witness :
  exists snap w',
    copy_ (fun _ => lit ".") (fun _ => StatNotFound) base0 (Some NFile)
      (lit "a-b") (lit "c") (InvBool false) (world_with []) = Some (Ok snap, w')
    /\ copy_ (fun _ => lit ".") (fun _ => StatNotFound) base0 None
         (lit "a") (lit "b-c") (InvBool false) w' = Some (Ok snap, w').
Proof.
  destruct (copy_ (fun _ => lit ".") (fun _ => StatNotFound) base0 (Some NFile)
              (lit "a-b") (lit "c") (InvBool false) (world_with []))
    as [[[snap|e] w']|] eqn:D; try (vm_compute in D; discriminate D).
  exists snap, w'. split; [reflexivity|].
  apply (@copy_of_other_paths_is_answered_from_the_cache (fun _ => lit ".")
           (fun _ => StatNotFound) (fun _ => StatNotFound) base0 (Some NFile) None
           (lit "a") (lit "b") (lit "c") false (world_with []) w' snap).
  exact D.
Defined.

Lemma copy_of_missing_source_witness :
  copy_ (fun _ => lit ".") (fun _ => StatNotFound) base0 None (lit "gone.txt") (lit "/srv")
    (InvBool false) (world_with [])
  = Some (Raise {| exc_type := lit "FileNotFoundError";
                   exc_msg := lit "Source path does not exist: gone.txt" |},
          {| store := [];
             started := [{| instance_id := lit "morphvm_7"; snapshot_id := lit "snap0" |}];
             next_id := 8; op_calls := 1 |}).
Proof.
  destruct (proj1 (@copy_of_missing_source (fun _ => lit ".") (fun _ => StatNotFound)
                     base0 (lit "gone.txt") (lit "/srv") (world_with [])))
    as (A & _); [reflexivity|].
  rewrite A. reflexivity.
Defined.


Lemma copy_directory_onto_a_file_witness :
  copy_calls (fun _ => lit ".") (fun _ => StatMode false)
    (Some (NDir [(lit "a.txt", NFile)])) (lit "site") (lit "/etc/hosts")
  = Raise {| exc_type := lit "ValueError";
             exc_msg := lit "Cannot copy directory to non-directory: /etc/hosts" |}.
Proof.
  rewrite (proj1 (@copy_directory_onto_a_file (fun _ => lit ".") (fun _ => StatMode false)
                    [(lit "a.txt", NFile)] (lit "site") (lit "/etc/hosts")));
    reflexivity.
Defined.

Lemma copy_of_special_source_caches_an_empty_copy_witness :
  exists snap w',
    copy_ (fun _ => lit ".") (fun _ => StatNotFound) base0 (Some NOther)
      (lit "/dev/null") (lit "/srv/null") (InvBool false) (world_with [])
    = Some (Ok snap, w')
    /\ snapshots_list (key_to_digest base0 (copy_key (lit "/dev/null") (lit "/srv/null"))) w'
       = [snapshot snap].
Proof.
  destruct (@copy_of_special_source_caches_an_empty_copy (fun _ => lit ".")
              (fun _ => StatNotFound) base0 (lit "/dev/null") (lit "/srv/null")
              (world_with [])) as (_ & snap & w' & A & _ & B); [reflexivity|].
  exists snap, w'. split; assumption.
Defined.

(* ------------------------------------------------------------------ *)
(** ** [VerificationPanel]: one row per name *)

Lemma dict_set_same_key (n v v0 : str) : dict_set n v [(n, v0)] = [(n, v)].
Proof. cbn [dict_set]. now rewrite eqb_refl. Qed.

Lemma panel_init_one_name (n : str) (fs : list VerifyFn) :
  Forall (fun g => __name__ g = n) fs ->
  forall v0,
    fold_left (fun d v => dict_set (__name__ v) running_status d) fs [(n, v0)]
    = [(n, match fs with [] => v0 | _ :: _ => running_status end)].
Proof.
  induction fs as [|g fs IH]; intros F v0; [reflexivity|].
  inversion F as [|? ? Hg Hfs]; subst. cbn [fold_left].
  rewrite dict_set_same_key, (IH Hfs). now destruct fs.
Qed.

Lemma last_cons_default {A} (l : list A) :
  forall a d d', last (a :: l) d = last (a :: l) d'.
Proof.
  induction l as [|b l IH]; intros a d d'; [reflexivity|].
  change (last (b :: l) d = last (b :: l) d'). apply IH.
Qed.

Lemma updates_one_name (n : str) (updates : list str) :
  forall p v0,
    _statuses p = [(n, v0)] ->
    _statuses (fold_left (fun p status => update n status p) updates p)
    = [(n, last updates v0)].
Proof.
  induction updates as [|u updates IH]; intros p v0 E; [exact E|].
  cbn [fold_left].
  rewrite (IH (update n u p) u).
  - destruct updates as [|x l]; [reflexivity|].
    now rewrite (last_cons_default l x u v0).
  - unfold update. cbn [_statuses]. rewrite E. apply dict_set_same_key.
Qed.

(** X19: the verification panel keeps one row per function name.  Built
    for checks that all bear one name (as lambdas do), it has a single
    row; after any updates under that name the row shows the last status
    only, and a last update that reports a pass or a failure sets the
    border to the colour of that one status, whatever was reported
    before. *)
Theorem checks_of_one_name_share_a_row (f : VerifyFn) (fs : list VerifyFn)
    (updates : list str) (status : str) :
  Forall (fun g => __name__ g = __name__ f) fs ->
  let p := fold_left (fun p status => update (__name__ f) status p) (updates ++ [status])
             (VerificationPanel_init (f :: fs)) in
  _statuses (VerificationPanel_init (f :: fs)) = [(__name__ f, running_status)]
  /\ _statuses p = [(__name__ f, status)]
  /\ length (_make_table (_statuses p)) = 1
  /\ (starts_with check_mark status = true -> border_style p = _colour "success")
  /\ (starts_with check_mark status = false -> starts_with cross_mark status = true ->
      border_style p = _colour "error").
Proof.
  intros F p.
  assert (I : _statuses (VerificationPanel_init (f :: fs)) = [(__name__ f, running_status)]).
  { unfold VerificationPanel_init. cbn [_statuses fold_left dict_set].
    rewrite (panel_init_one_name F). now destruct fs. }
  assert (B : _statuses (fold_left (fun p status => update (__name__ f) status p) updates
                           (VerificationPanel_init (f :: fs)))
              = [(__name__ f, last updates running_status)])
    by (apply updates_one_name; exact I).
  assert (P : _statuses p = [(__name__ f, status)]).
  { unfold p. rewrite (updates_one_name _ _ I), last_last. reflexivity. }
  split; [exact I|]. split; [exact P|]. split; [now rewrite P|].
  unfold p. rewrite fold_left_app. cbn [fold_left]. unfold update at 1 3.
  cbn [border_style]. rewrite B, dict_set_same_key.
  cbn [forallb existsb snd andb orb]. split.
  - intros ->. reflexivity.
  - intros -> ->. reflexivity.
Qed.

Lemma checks_of_one_name_share_a_row_witness :
  _statuses
    (update (lit "<lambda>") ([9989%N] ++ lit " passed")
       (update (lit "<lambda>") ([10060%N] ++ lit " failed (port 80 closed)")
          (VerificationPanel_init
             [ {| __name__ := lit "<lambda>";
                  check := fun _ => Raise {| exc_type := lit "AssertionError";
                                             exc_msg := lit "port 80 closed" |} |};
               {| __name__ := lit "<lambda>"; check := fun _ => Ok tt |} ])))
  = [(lit "<lambda>", [9989%N] ++ lit " passed")].
Proof.
  destruct (@checks_of_one_name_share_a_row
              {| __name__ := lit "<lambda>";
                 check := fun _ => Raise {| exc_type := lit "AssertionError";
                                            exc_msg := lit "port 80 closed" |} |}
              [ {| __name__ := lit "<lambda>"; check := fun _ => Ok tt |} ]
              [ [10060%N] ++ lit " failed (port 80 closed)" ]
              ([9989%N] ++ lit " passed"))
    as (_ & P & _).
  - repeat constructor.
  - exact P.
Defined.

(* ------------------------------------------------------------------ *)
(** ** [resize]: keys of distinct sizes *)

Lemma lit_injective (s1 s2 : string) : lit s1 = lit s2 -> s1 = s2.
Proof.
  unfold lit. revert s2. induction s1 as [|a s1 IH]; intros [|b s2] E;
    simpl in E; try discriminate; [reflexivity|].
  injection E as E1 E2. f_equal; [|now apply IH].
  rewrite <- (ascii_N_embedding a), <- (ascii_N_embedding b). now rewrite E1.
Qed.

Lemma to_int_proper (z : Z) : Z.to_int z <> Decimal.Pos Decimal.Nil
                              /\ Z.to_int z <> Decimal.Neg Decimal.Nil.
Proof.
  destruct z as [|p|p]; simpl; split; try discriminate;
    intros E; injection E as E; now apply DecimalPos.Unsigned.to_uint_nonnil in E.
Qed.

Lemma str_of_int_parses (z : Z) :
  NilZero.int_of_string (NilZero.string_of_int (Z.to_int z)) = Some (Z.to_int z).
Proof. destruct (to_int_proper z). now apply NilZero.isi. Qed.

Lemma str_of_int_injective (z1 z2 : Z) : str_of_int z1 = str_of_int z2 -> z1 = z2.
Proof.
  unfold str_of_int. intros E. apply lit_injective in E.
  pose proof (str_of_int_parses z1) as P1. rewrite E, str_of_int_parses in P1.
  injection P1 as P1. rewrite <- (DecimalZ.of_to z1), <- (DecimalZ.of_to z2). now rewrite P1.
Qed.

Lemma str_of_int_not_None (z : Z) : str_of_int z <> lit "None".
Proof.
  unfold str_of_int. intros E. apply lit_injective in E.
  pose proof (str_of_int_parses z) as P. rewrite E in P. discriminate P.
Qed.

Lemma format_size_injective (x y : option Z) : format_size x = format_size y -> x = y.
Proof.
  destruct x as [a|], y as [b|]; cbn [format_size]; intros E.
  - f_equal. now apply str_of_int_injective.
  - now apply str_of_int_not_None in E.
  - symmetry in E. now apply str_of_int_not_None in E.
  - reflexivity.
Qed.

Lemma digits_without_hyphen (d : Decimal.uint) :
  ~ In 45%N (lit (NilEmpty.string_of_uint d)).
Proof.
  induction d; cbn [NilEmpty.string_of_uint lit list_ascii_of_string map In];
    try (intros [E|I]; [discriminate E | now apply IHd]).
  intros [].
Qed.

Lemma uint_token (d : Decimal.uint) :
  lit (NilZero.string_of_uint d) <> [] /\ ~ In 45%N (lit (NilZero.string_of_uint d)).
Proof.
  destruct d; cbn [NilZero.string_of_uint];
    try (split; [discriminate | apply digits_without_hyphen]).
  split; [discriminate|]. intros [E|[]]. discriminate E.
Qed.

Lemma format_size_token (x : option Z) : size_token (format_size x).
Proof.
  destruct x as [z|]; cbn [format_size].
  - unfold str_of_int. destruct (Z.to_int z) as [d|d]; cbn [NilZero.string_of_int].
    + exists (lit (NilZero.string_of_uint d)).
      destruct (uint_token d). repeat split; auto.
    + exists (lit (NilZero.string_of_uint d)).
      destruct (uint_token d). repeat split; auto.
  - exists (lit "None"). split; [discriminate|]. split; [|now left].
    intros I. repeat (destruct I as [E|I]; [discriminate E|]). destruct I.
Qed.

Lemma hyphen_split (b1 : str) :
  forall b2 r1 r2,
    ~ In 45%N b1 -> ~ In 45%N b2 ->
    b1 ++ 45%N :: r1 = b2 ++ 45%N :: r2 -> b1 = b2 /\ r1 = r2.
Proof.
  induction b1 as [|x b1 IH]; intros [|y b2] r1 r2 N1 N2 E; cbn [app] in E.
  - injection E as <-. now split.
  - exfalso. injection E as E _. apply N2. left. now symmetry.
  - exfalso. injection E as E _. apply N1. now left.
  - injection E as <- E. destruct (IH b2 r1 r2) as [-> ->]; auto.
    + intros I. apply N1. now right.
    + intros I. apply N2. now right.
Qed.

Lemma size_token_split (t1 t2 r1 r2 : str) :
  size_token t1 -> size_token t2 ->
  t1 ++ 45%N :: r1 = t2 ++ 45%N :: r2 -> t1 = t2 /\ r1 = r2.
Proof.
  intros (b1 & NE1 & N1 & [->| ->]) (b2 & NE2 & N2 & [->| ->]) E.
  - now apply hyphen_split.
  - exfalso. destruct b1 as [|x b1]; [contradiction|]. cbn [app] in E.
    injection E as -> _. apply N1. now left.
  - exfalso. destruct b2 as [|y b2]; [contradiction|]. cbn [app] in E.
    injection E as E _. apply N2. left. now symmetry.
  - cbn [app] in E. injection E as E.
    destruct (@hyphen_split b1 b2 r1 r2 N1 N2 E) as [-> ->]. now split.
Qed.

(** X20: the key of [resize] tells any two requests apart: two triples
    of sizes, each an integer or [None], give the same key only if they
    are the same triple. *)
Theorem resize_key_injective (v m d v' m' d' : option Z) :
  resize_key v m d = resize_key v' m' d' <-> v = v' /\ m = m' /\ d = d'.
Proof.
  split; [|now intros (-> & -> & ->)].
  unfold resize_key. intros E. apply app_inv_head in E.
  change (lit "-") with [45%N] in E. cbn [app] in E.
  destruct (@size_token_split _ _ _ _ (format_size_token v) (format_size_token v') E)
    as [Ev E2].
  destruct (@size_token_split _ _ _ _ (format_size_token m) (format_size_token m') E2)
    as [Em Ed].
  repeat split; now apply format_size_injective.
Qed.

(* ------------------------------------------------------------------ *)
(** ** [start]: the metadata *)

Lemma dict_get_set (k k' v : str) (d : Dict) :
  dict_get k (dict_set k' v d) = if PyStr.eqb k' k then Some v else dict_get k d.
Proof.
  induction d as [|[k0 v0] d IH]; cbn [dict_set dict_get].
  - reflexivity.
  - destruct (PyStr.eqb k0 k') eqn:E0; cbn [dict_get].
    + apply eqb_eq in E0. subst k0. destruct (PyStr.eqb k' k); reflexivity.
    + destruct (PyStr.eqb k0 k) eqn:E1; [|exact IH].
      destruct (PyStr.eqb k' k) eqn:E2; [|reflexivity].
      apply eqb_eq in E1, E2. subst. now rewrite eqb_refl in E0.
Qed.

Lemma dict_get_update (k : str) (m : Dict) :
  NoDup (map fst m) ->
  forall d,
    dict_get k (dict_update d m)
    = match dict_get k m with Some v => Some v | None => dict_get k d end.
Proof.
  unfold dict_update. induction m as [|[k0 v0] m IH]; intros ND d; cbn [fold_left fst snd].
  - reflexivity.
  - inversion ND as [|? ? Hk Hm]; subst. rewrite (IH Hm), dict_get_set.
    cbn [dict_get]. destruct (PyStr.eqb k0 k) eqn:E; [|reflexivity].
    apply eqb_eq in E. subst k0.
    destruct (dict_get k m) as [v|] eqn:G; [|reflexivity].
    exfalso. apply Hk. clear -G.
    induction m as [|[k1 v1] m IHm]; cbn [dict_get] in G; [discriminate|].
    destruct (PyStr.eqb k1 k) eqn:E; [apply eqb_eq in E; subst; now left|].
    right. now apply IHm.
Qed.

(** X21: the metadata an instance is started with holds every entry the
    caller gave, and the entry [root] naming the snapshot only as a
    default: a caller who passes a [root] of his own replaces it. *)
Theorem start_metadata_lookup (self : Snapshot) (metadata : Dict) (k : str) :
  NoDup (map fst metadata) ->
  dict_get k (start_metadata self (Some metadata))
  = match dict_get k metadata with
    | Some v => Some v
    | None => if PyStr.eqb (lit "root") k then Some (id (snapshot self)) else None
    end.
Proof.
  intros ND. unfold start_metadata. destruct metadata as [|kv m]; [reflexivity|].
  now rewrite dict_get_update.
Qed.

Lemma start_metadata_lookup_witness :
  dict_get (lit "root")
    (start_metadata base0 (Some [(lit "purpose", lit "test"); (lit "root", lit "mine")]))
  = Some (lit "mine").
Proof.
  rewrite start_metadata_lookup; [reflexivity|].
  repeat constructor; intros I; repeat (destruct I as [E|I]; [discriminate E|]); exact I.
Defined.
